(** * Chart axis data helpers, widget buttons and scrollview offsets

    A shallow embedding of the algorithmic parts of the toolkit:
    - [StackedData]   : charts/js/StackedData.js, stacked minimum and maximum;
    - [CategoryImpl]  : the category axis index and label lookup;
    - [WidgetButtons] : the buttons registry of the widget extension;
    - [ScrollView]    : the scroll offsets exercised by the scrollview tests.

    JavaScript numbers are taken to be integers ([Z]) next to the two
    non-numbers that the code tests for ([NaN] and [undefined]); objects used
    as dictionaries are finite maps, and the [keys] object that
    [StackedData] walks with [for .. in] is an association list in insertion
    order. *)

From Stdlib Require Import ZArith List Bool Ascii Lia.
From stdpp Require Import gmap strings list fin_maps.

Local Open Scope Z_scope.

(* ===================================================================== *)
(** ** StackedData *)
(* ===================================================================== *)

Module StackedData.

(** An entry of a series array.  [Undefined] is a hole, and also what an
    index past the end of an array reads. *)
Inductive value :=
| Num (n : Z)
| NaN
| Undefined.

(** The global [isNaN]: true on [NaN] and on [undefined]. *)
Definition isNaN (v : value) : bool :=
  match v with
  | Num _ => false
  | NaN | Undefined => true
  end.

(** [keys[key]]: one series.  [keys]: own properties in [for .. in] order. *)
Definition series := list value.
Definition keys_t := list (string * series).

(** [keys[key][i]] *)
Definition index (arr : series) (i : nat) : value := nth i arr Undefined.

(** First loop: [len = Math.max(len, keys[key].length)] for every key. *)
Definition longest (keys : keys_t) : nat :=
  fold_left (fun len kv => Nat.max len (length (snd kv))) keys 0%nat.

(** Body of the inner loop at index [i], on the pair [(pos, neg)]. *)
Definition stack_step (i : nat) (acc : Z * Z) (kv : string * series) : Z * Z :=
  let '(pos, neg) := acc in
  let num := index (snd kv) i in
  if isNaN num then (pos, neg) (* continue *)
  else
    match num with
    | Num n => if 0 <=? n then (pos + n, neg) else (pos, neg + n)
    | _ => (pos, neg)
    end.

(** The inner loop: [pos = 0; neg = 0; for (key in keys) ...]. *)
Definition stack_at (keys : keys_t) (i : nat) : Z * Z :=
  fold_left (stack_step i) keys (0, 0).

(** Body of the outer loop, on the pair [(max, min)]. *)
Definition bounds_step (keys : keys_t) (acc : Z * Z) (i : nat) : Z * Z :=
  let '(max, min) := acc in
  let '(pos, neg) := stack_at keys i in
  let max := if 0 <? pos then Z.max max pos else Z.max max neg in
  let min := if neg <? 0 then Z.min min neg else Z.min min pos in
  (max, min).

(** What one run of [_updateMinAndMax] leaves behind: the two fields it
    assigns and the arguments of its closing call to [_roundMinAndMax]
    (a method of the numeric axis this helper is mixed into). *)
Record result := {
  _actualMaximum : Z;
  _actualMinimum : Z;
  round_min : Z;
  round_max : Z;
  round_setMin : bool;
  round_setMax : bool
}.

(** The attributes and fields read by the method. *)
Record axis := {
  keys : keys_t;
  setMin : bool;
  setMax : bool;
  _setMinimum : Z;
  _setMaximum : Z
}.

Definition _updateMinAndMax (this : axis) : result :=
  let len := longest (keys this) in
  let '(max, min) := fold_left (bounds_step (keys this)) (seq 0 len) (0, 0) in
  let max' := if setMax this then _setMaximum this else max in
  let min' := if setMin this then _setMinimum this else min in
  {| _actualMaximum := max;
     _actualMinimum := min;
     round_min := min';
     round_max := max';
     round_setMin := setMin this;
     round_setMax := setMax this |}.

(** *** The reduction in the words of the description *)

(** Numeric entries at index [i], one per series that has one. *)
Definition numbers_at (keys : keys_t) (i : nat) : list Z :=
  flat_map (fun kv => match index (snd kv) i with
                      | Num n => [n]
                      | _ => []
                      end) keys.

Definition sum (l : list Z) : Z := fold_right Z.add 0 l.

(** Positive stack: the sum of the values [>= 0] at an index. *)
Definition positive_sum (keys : keys_t) (i : nat) : Z :=
  sum (filter (fun n => 0 <= n) (numbers_at keys i)).

(** Negative stack: the sum of the values [< 0] at an index. *)
Definition negative_sum (keys : keys_t) (i : nat) : Z :=
  sum (filter (fun n => n < 0) (numbers_at keys i)).

(** Length of the longest series. *)
Definition longest_length (keys : keys_t) : nat :=
  fold_right Nat.max 0%nat (map (fun kv => length (snd kv)) keys).

End StackedData.

(* ===================================================================== *)
(** ** CategoryImpl *)
(* ===================================================================== *)

Module CategoryImpl.

(** The JavaScript values a label or an index can be. *)
Inductive value :=
| JUndefined
| JNull
| JBool (b : bool)
| JNum (n : Z)
| JNaN
| JStr (s : string).

(** ToBoolean, as [&&] and [if] apply it. *)
Definition truthy (v : value) : bool :=
  match v with
  | JUndefined | JNull | JNaN => false
  | JBool b => b
  | JNum n => negb (n =? 0)
  | JStr s => negb (String.eqb s "")
  end.

(** An element of the data array: an object read by property name. *)
Abbreviation object := (gmap string value).

(** [obj[key]]: a property that is not there reads [undefined]. *)
Definition prop (obj : object) (key : string) : value :=
  default JUndefined (obj !! key).

(** Arrays.  [arr[i] = v] overwrites inside the array and grows it otherwise,
    leaving holes (which read [undefined]) when [i] is past the end. *)
Abbreviation array := (list value).

Definition array_set (arr : array) (i : nat) (v : value) : array :=
  if decide (i < length arr)%nat then <[i := v]> arr
  else arr ++ replicate (i - length arr) JUndefined ++ [v].

(** [arr[index]] for a numeric index. *)
Definition array_get (arr : array) (index : Z) : value :=
  if decide (0 <= index) then default JUndefined (arr !! Z.to_nat index)
  else JUndefined.

Record axis := {
  _indices : option (gmap string array);   (* [null] until first used *)
  _dataClone : list object;
  keys : gmap string array;                (* the "keys" attribute *)
  _updateTotalDataFlag : bool
}.

(** [if(!this._indices) { this._indices = {}; }] *)
Definition indices_or_empty (this : axis) : gmap string array :=
  match _indices this with
  | Some ix => ix
  | None => ∅
  end.

(** One turn of the loop shared by [_getKeyArray] and [_setDataByKey]:
    [obj = data[i]; keyArr[i] = i; labels[i] = obj[key];].  Reading a
    property of a missing element raises a TypeError ([None]). *)
Definition project_step (key : string) (data : list object)
    (acc : option (array * array)) (i : nat) : option (array * array) :=
  match acc with
  | None => None
  | Some (keyArr, labels) =>
      match data !! i with
      | None => None
      | Some obj =>
          Some (array_set keyArr i (JNum (Z.of_nat i)),
                array_set labels i (prop obj key))
      end
  end.

(** [for(i = 0; i < len; ++i) ...] starting from two empty arrays. *)
Definition project_loop (key : string) (data : list object)
    : option (array * array) :=
  fold_left (project_step key data) (seq 0 (length data)) (Some ([], [])).

Definition _getKeyArray (key : string) (data : list object) (this : axis)
    : option (array * axis) :=
  match project_loop key data with
  | None => None
  | Some (keyArr, labels) =>
      Some (labels,
            {| _indices := Some (<[key := keyArr]> (indices_or_empty this));
               _dataClone := _dataClone this;
               keys := keys this;
               _updateTotalDataFlag := _updateTotalDataFlag this |})
  end.

Definition _setDataByKey (key : string) (this : axis) : option axis :=
  let dv := _dataClone this ++ [] (* concat() *) in
  match project_loop key dv with
  | None => None
  | Some (arr, labels) =>
      Some {| _indices := Some (<[key := arr]> (indices_or_empty this));
              _dataClone := _dataClone this;
              keys := <[key := labels ++ []]> (keys this);
              _updateTotalDataFlag := true |}
  end.

(** [keys[key] && keys[key][index]]: an array is truthy, a missing key is
    not. *)
Definition getKeyValueAt (key : string) (index : Z) (this : axis) : value :=
  match keys this !! key with
  | Some arr =>
      if truthy (array_get arr index) then array_get arr index else JNaN
  | None => JNaN
  end.

(** The index sequence [0, 1, ..., n-1] and the projection of the data onto
    a key, as the description of the axis data index words them. *)
Definition positions (n : nat) : array :=
  (fun i => JNum (Z.of_nat i)) <$> seq 0 n.

Definition labels_of (key : string) (data : list object) : array :=
  (fun obj => prop obj key) <$> data.

(** *** The labels of the axis

    [this.get("data")] is the array of the labels of the axis; the methods
    below read it, and take it here as an argument. *)

(** What [_updateMinAndMax] assigns. *)
Record extent := {
  _dataMaximum : Z;
  _dataMinimum : Z
}.

Definition _updateMinAndMax (data : array) : extent :=
  {| _dataMaximum := Z.max (Z.of_nat (length data) - 1) 0;
     _dataMinimum := 0 |}.

Definition getTotalMajorUnits (data : array) : Z := Z.of_nat (length data).

(** [direction && direction == "vertical"] *)
Definition is_vertical (direction : option string) : bool :=
  match direction with
  | Some d => String.eqb d "vertical"
  | None => false
  end.

Definition _getLabelByIndex (i l : Z) (direction : option string)
    (data : array) : value :=
  if is_vertical direction then array_get data i
  else array_get data (l - (i + 1)).

Definition getMinimumValue (data : array) : value := array_get data 0.

Definition getMaximumValue (data : array) : value :=
  let len := Z.of_nat (length data) - 1 in
  array_get data len.

Section Keys.

(** [this.get("keys")]: reading the attribute runs a getter of the axis this
    helper is mixed into, which may build the index. *)
Variable get_keys : axis -> axis.

(** [getDataByKey(value)]: the index array of the key, or [null] ([None]),
    and the axis as the call leaves it.  [keys[value]] raises a TypeError
    (the outer [None]) if [_indices] is still [null] after the read. *)
Definition getDataByKey (value : string) (this : axis)
    : option (option array) * axis :=
  let this := match _indices this with
              | None => get_keys this
              | Some _ => this
              end in
  match _indices this with
  | None => (None, this)
  | Some keys => (Some (keys !! value), this)
  end.

End Keys.

End CategoryImpl.

(* ===================================================================== *)
(** ** WidgetButtons *)
(* ===================================================================== *)

Module WidgetButtons.

(** A call either returns or raises. *)
Inductive outcome (A : Type) :=
| Returned (a : A)
| Raised (message : string).
Arguments Returned {A} a.
Arguments Raised {A} message.

(** What [isDefault] (in a configuration) or the ['default'] data of a node
    can hold. *)
Inductive flag :=
| FUndefined
| FBool (b : bool)
| FStr (s : string).

(** A [Y.Node] as far as the registry looks at it: its identity, the data
    stored under ['name'] and ['default'], and its [name] attribute. *)
Record node := {
  yuid : nat;
  data_name : option string;
  data_default : flag;
  attr_name : option string
}.

(** The properties of a button configuration that decide where the button
    goes and how it is found again.  The others ([action], [classNames],
    [context], [events], [label], [value]) only reach the rendered node. *)
Record config := {
  cfg_name : option string;
  cfg_type : option string;
  cfg_section : option string;
  cfg_isDefault : flag
}.

#[global] Instance flag_eq_dec : EqDecision flag.
Proof. solve_decision. Defined.
#[global] Instance node_eq_dec : EqDecision node.
Proof. solve_decision. Defined.

(** The [button] argument: a node, a configuration object or the name of a
    predefined button. *)
Inductive button_arg :=
| BNode (n : node)
| BConfig (c : config)
| BName (s : string).

(** A string or [undefined] used as a condition, and [a || b]. *)
Definition truthy (s : option string) : bool :=
  match s with
  | Some s => negb (String.eqb s "")
  | None => false
  end.

Definition or_else (a b : option string) : option string :=
  if truthy a then a else b.

(** A string or [undefined] used as a property name. *)
Definition key_of (s : option string) : string := default "undefined" s.

(** [String.prototype.toLowerCase] on the ASCII letters. *)
Definition lower_char (c : ascii) : ascii :=
  let n := nat_of_ascii c in
  if ((65 <=? n) && (n <=? 90))%nat then ascii_of_nat (n + 32) else c.

Fixpoint toLowerCase (s : string) : string :=
  match s with
  | EmptyString => EmptyString
  | String c s' => String (lower_char c) (toLowerCase s')
  end.

(** [Y.WidgetStdMod.FOOTER] and the prototype's [DEFAULT_BUTTONS_SECTION]. *)
Definition FOOTER : string := "footer".
Definition DEFAULT_BUTTONS_SECTION : string := FOOTER.

(** [arr.splice(index, 0, x)]: a negative index counts from the end, and the
    start is clamped to the array. *)
Definition splice_insert {A} (arr : list A) (index : Z) (x : A) : list A :=
  let len := Z.of_nat (length arr) in
  let start := if index <? 0 then Z.max (len + index) 0 else Z.min index len in
  take (Z.to_nat start) arr ++ x :: drop (Z.to_nat start) arr.

(** [arr[i]]: [undefined] outside the array. *)
Definition item {A} (arr : list A) (i : Z) : option A :=
  if decide (0 <= i) then arr !! Z.to_nat i else None.

(** What the widget asks of the DOM; the registry does not depend on how the
    requests are carried out. *)
Inductive ui_request :=
| UiInsertButton (button : node) (section : string) (index : Z)
| UiRemoveButton (button : node)
| UiSetButtons (buttons : gmap string (list node)).

Record widget := {
  _stdModNode : option node;            (* set by WidgetStdMod *)
  BUTTONS : gmap string config;         (* predefined buttons *)
  buttons : gmap string (list node);    (* stored value of the attribute *)
  _buttonsMap : gmap string node;
  _defaultButton : option node;
  after_buttonsChange : bool;           (* [_afterButtonsChange] subscribed *)
  ui : list ui_request
}.

Definition with_buttons (b : gmap string (list node)) (w : widget) : widget :=
  {| _stdModNode := _stdModNode w; BUTTONS := BUTTONS w; buttons := b;
     _buttonsMap := _buttonsMap w; _defaultButton := _defaultButton w;
     after_buttonsChange := after_buttonsChange w; ui := ui w |}.

Definition with_map (m : gmap string node) (d : option node) (w : widget)
    : widget :=
  {| _stdModNode := _stdModNode w; BUTTONS := BUTTONS w; buttons := buttons w;
     _buttonsMap := m; _defaultButton := d;
     after_buttonsChange := after_buttonsChange w; ui := ui w |}.

Definition with_ui (r : ui_request) (w : widget) : widget :=
  {| _stdModNode := _stdModNode w; BUTTONS := BUTTONS w; buttons := buttons w;
     _buttonsMap := _buttonsMap w; _defaultButton := _defaultButton w;
     after_buttonsChange := after_buttonsChange w; ui := ui w ++ [r] |}.

Definition with_listener (w : widget) : widget :=
  {| _stdModNode := _stdModNode w; BUTTONS := BUTTONS w; buttons := buttons w;
     _buttonsMap := _buttonsMap w; _defaultButton := _defaultButton w;
     after_buttonsChange := true; ui := ui w |}.

(** Modelled from the spec: [Y.error], the host framework's assertion
    ("Errors are host-framework assertions"), raises with its message. *)
Definition Y_error {A} (message : string) : outcome A := Raised message.

(** The constructor. *)
Definition WidgetButtons (this : widget) : outcome widget :=
  match _stdModNode this with
  | None =>
      Y_error "WidgetStdMod must be added to the Widget before WidgetButtons."
  | Some _ => Returned this
  end.

(** The argument of [_getButtonDefault] and [_getButtonName]. *)
Inductive node_or_config :=
| IsNode (n : node)
| IsConfig (c : config).

Definition _getButtonDefault (button : node_or_config) : bool :=
  let isDefault := match button with
                   | IsNode n => data_default n
                   | IsConfig c => cfg_isDefault c
                   end in
  match isDefault with
  | FStr s => String.eqb (toLowerCase s) "true"
  | FBool b => b
  | FUndefined => false
  end.

Definition _getButtonName (button : node_or_config) : option string :=
  match button with
  | IsNode n => or_else (data_name n) (attr_name n)
  | IsConfig c => or_else (cfg_name c) (cfg_type c)
  end.

(** [Y.mix(config, defConfig, false, null, 0, true)]: a property of the
    defaults is taken only where the configuration has none. *)
Definition mix_flag (a b : flag) : flag :=
  match a with
  | FUndefined => b
  | _ => a
  end.

Definition mix (c defConfig : config) : config :=
  {| cfg_name := if cfg_name c is Some _ then cfg_name c else cfg_name defConfig;
     cfg_type := if cfg_type c is Some _ then cfg_type c else cfg_type defConfig;
     cfg_section :=
       if cfg_section c is Some _ then cfg_section c else cfg_section defConfig;
     cfg_isDefault := mix_flag (cfg_isDefault c) (cfg_isDefault defConfig) |}.

Definition _mergeButtonConfig (this : widget) (c : config) : config :=
  let name := _getButtonName (IsConfig c) in
  match BUTTONS this !! key_of name with
  | Some defConfig => mix c defConfig
  | None => c
  end.

(** [isString(config) ? {name: config} : Y.merge(config)] *)
Definition as_config (s : string) : config :=
  {| cfg_name := Some s; cfg_type := None; cfg_section := None;
     cfg_isDefault := FUndefined |}.

Section Host.

(** [new Y.Button(..).getNode()]: the node the host's button widget renders
    for a configuration. *)
Variable Y_Button_getNode : config -> node.

Definition _createButton (c : config) : node :=
  let button := Y_Button_getNode c in
  {| yuid := yuid button;
     data_name := cfg_name c;                               (* setData('name', ..) *)
     data_default := FBool (_getButtonDefault (IsConfig c)); (* setData('default', ..) *)
     attr_name := attr_name button |}.

(** The common start of [addButton] and of the setter's loop: a button that
    is not a node is created from its merged configuration, and its
    configured section is used when none was given. *)
Definition resolve (this : widget) (button : button_arg)
    (section : option string) : node * option string :=
  match button with
  | BNode n => (n, section)
  | BConfig c =>
      let c := _mergeButtonConfig this c in
      (_createButton c, or_else section (cfg_section c))
  | BName s =>
      let c := _mergeButtonConfig this (as_config s) in
      (_createButton c, or_else section (cfg_section c))
  end.

(** The getter: a new object holding a [concat()] copy of every section. *)
Definition _getButtons (buttons : gmap string (list node))
    : gmap string (list node) :=
  map_fold (fun section sectionButtons buttonsCopy =>
              <[section := sectionButtons ++ []]> buttonsCopy) ∅ buttons.

(** [(buttons[section] || (buttons[section] = [])).push(button)] *)
Definition push_button (section : string) (button : node)
    (buttons : gmap string (list node)) : gmap string (list node) :=
  <[section := default [] (buttons !! section) ++ [button]]> buttons.

Definition process_button (this : widget) (currentSection : option string)
    (buttons : gmap string (list node)) (button : button_arg)
    : gmap string (list node) :=
  let '(button, section) := resolve this button currentSection in
  let section := or_else section (Some DEFAULT_BUTTONS_SECTION) in
  push_button (key_of section) button buttons.

Definition processButtons (this : widget) (buttonConfigs : list button_arg)
    (currentSection : option string) (buttons : gmap string (list node))
    : gmap string (list node) :=
  fold_left (process_button this currentSection) buttonConfigs buttons.

(** The value given to the setter: an array, or an object of arrays.
    [YObject.each] visits the sections of an object in the order of its
    properties, [map_fold] in the order of the map's keys; the two orders
    tell apart only where two sections feed one (a section named by the
    empty string goes to the default section) and, in [_mapButtons], which
    of two buttons of one name in different sections is mapped last. *)
Inductive buttons_config :=
| CfgArray (l : list button_arg)
| CfgObject (o : gmap string (list button_arg)).

(** An object of arrays of nodes, such as the getter returns, given to the
    setter. *)
Definition of_nodes (buttons : gmap string (list node)) : buttons_config :=
  CfgObject (fmap (M := list) BNode <$> buttons).

Definition _setButtons (this : widget) (cfg : buttons_config)
    : gmap string (list node) :=
  match cfg with
  | CfgArray l => processButtons this l None ∅
  | CfgObject o =>
      map_fold (fun section buttonConfigs buttons =>
                  processButtons this buttonConfigs (Some section) buttons) ∅ o
  end.

Definition _mapButton (button : node) (this : widget) : widget :=
  let name := _getButtonName (IsNode button) in
  let isDefault := _getButtonDefault (IsNode button) in
  with_map (<[key_of name := button]> (_buttonsMap this))
           (if isDefault then Some button else _defaultButton this) this.

Definition _mapButtons (buttons : gmap string (list node)) (this : widget)
    : widget :=
  map_fold (fun _ sectionButtons this =>
              fold_left (fun this button => _mapButton button this)
                        sectionButtons this)
           (with_map ∅ None this) buttons.

Definition _unMapButton (button : node) (this : widget) : widget :=
  let name := key_of (_getButtonName (IsNode button)) in
  let map := if decide (_buttonsMap this !! name = Some button)
             then delete name (_buttonsMap this) else _buttonsMap this in
  with_map map
           (if decide (_defaultButton this = Some button) then None
            else _defaultButton this) this.

Definition _uiInsertButton (button : node) (section : string)
    (index : Z) (this : widget) : widget :=
  with_ui (UiInsertButton button section index) this.

Definition _uiRemoveButton (button : node) (this : widget) : widget :=
  with_ui (UiRemoveButton button) this.

Definition _uiSetButtons (buttons : gmap string (list node)) (this : widget)
    : widget :=
  with_ui (UiSetButtons buttons) this.

(** What the caller of [set] passes along and the [buttonsChange] facade
    carries besides the new value: [src: 'add'] or [src: 'remove'] with the
    button, its section and its index, or nothing. *)
Inductive change :=
| SrcAdd (button : node) (section : string) (index : Z)
| SrcRemove (button : node) (section : string) (index : Z)
| SrcNone.

Definition _afterButtonsChange (newVal : gmap string (list node))
    (e : change) (this : widget) : widget :=
  match e with
  | SrcAdd button section index =>
      _uiInsertButton button section index (_mapButton button this)
  | SrcRemove button _ _ =>
      _uiRemoveButton button (_unMapButton button this)
  | SrcNone => _uiSetButtons newVal (_mapButtons newVal this)
  end.

(** [this.get('buttons')].  The attribute is declared in [ATTRS] with
    [getter: '_getButtons'] and [setter: '_setButtons']: reading it applies
    the getter to the stored value. *)
Definition get_buttons (this : widget) : gmap string (list node) :=
  _getButtons (buttons this).

(** [this.set('buttons', value, opts)]: the setter's result "is stored as
    the new state", then [buttonsChange] fires, its facade carrying the new
    value and [opts], and [_afterButtonsChange] runs if it is subscribed. *)
Definition set_buttons (value : buttons_config) (e : change) (this : widget)
    : widget :=
  let newVal := _setButtons this value in
  let this := with_buttons newVal this in
  if after_buttonsChange this then _afterButtonsChange newVal e this
  else this.

Definition initializer (this : widget) : widget :=
  _mapButtons (get_buttons this) this.

(** Runs after [bindUI], that is, when the widget is rendered. *)
Definition _bindUIButtons (this : widget) : widget := with_listener this.

Definition _syncUIButtons (this : widget) : widget :=
  _uiSetButtons (get_buttons this) this.

Definition addButton (button : button_arg) (section : option string)
    (index : option Z) (this : widget) : widget :=
  let buttons := get_buttons this in
  let '(button, section) := resolve this button section in
  let section := key_of (or_else section (Some DEFAULT_BUTTONS_SECTION)) in
  let '(sectionButtons, buttons) :=
    match buttons !! section with
    | Some arr => (arr, buttons)
    | None => ([], <[section := []]> buttons)
    end in
  let index := match index with
               | Some i => i
               | None => Z.of_nat (length sectionButtons)
               end in
  (* splice changes the array held by buttons[section] *)
  let buttons := <[section := splice_insert sectionButtons index button]> buttons in
  set_buttons (of_nodes buttons) (SrcAdd button section index) this.

(** The first argument of [getButton]: a number or a string. *)
Inductive button_key :=
| KIndex (i : Z)
| KName (s : string).

Definition getButton (name : button_key) (section : option string)
    (this : widget) : option node :=
  match name with
  | KIndex i =>
      let buttons := get_buttons this in
      let section := key_of (or_else section (Some DEFAULT_BUTTONS_SECTION)) in
      match buttons !! section with
      | Some arr => item arr i
      | None => None
      end
  | KName s => _buttonsMap this !! s
  end.

End Host.

(** The stored value of the attribute never has a section named by the
    empty string, nor a section without buttons. *)
Definition well_formed (b : gmap string (list node)) : Prop :=
  b !! ""%string = None /\ forall k l, b !! k = Some l -> l ≠ [].

(** Values for the examples: the node the host renders for a configuration,
    two nodes of the caller's, and a rendered widget without buttons. *)
Definition rendered_button (c : config) : node :=
  {| yuid := 0; data_name := None; data_default := FUndefined;
     attr_name := cfg_name c |}.

Definition ok_node : node :=
  {| yuid := 1; data_name := Some "ok"%string; data_default := FUndefined;
     attr_name := None |}.

Definition cancel_node : node :=
  {| yuid := 2; data_name := Some "cancel"%string; data_default := FUndefined;
     attr_name := None |}.

Definition close_config : config :=
  {| cfg_name := None; cfg_type := None; cfg_section := Some "header"%string;
     cfg_isDefault := FUndefined |}.

Definition empty_widget (bound : bool) : widget :=
  {| _stdModNode := Some {| yuid := 3; data_name := None;
                            data_default := FUndefined; attr_name := None |};
     BUTTONS := {[ "close"%string := close_config ]};
     buttons := ∅; _buttonsMap := ∅; _defaultButton := None;
     after_buttonsChange := bound; ui := [] |}.

(** *** Removing buttons *)

(** The [button] argument of [removeButton]: a node, an index or a name. *)
Inductive button_ref :=
| RNode (n : node)
| RIndex (i : Z)
| RName (s : string).

(** [YArray.indexOf(arr, x)]: the first index at which [x] is, or [-1].
    [undefined] ([None]) is at no index of an array of nodes. *)
Fixpoint indexOf (arr : list node) (x : option node) : Z :=
  match arr with
  | [] => -1
  | y :: rest =>
      if decide (Some y = x) then 0
      else let i := indexOf rest x in if i <? 0 then -1 else i + 1
  end.

(** [arr.splice(index, 1)]: the start is found as for an insertion, and one
    element goes if there is one at the start. *)
Definition splice_remove {A} (arr : list A) (index : Z) : list A :=
  let len := Z.of_nat (length arr) in
  let start := if index <? 0 then Z.max (len + index) 0 else Z.min index len in
  take (Z.to_nat start) arr ++ drop (S (Z.to_nat start)) arr.

(** The search of [removeButton], [YObject.some(buttons, ..)]: the callback
    sets [index] in every section it visits, and sets [section] and stops
    the walk at the first section in which the button is.  [index] starts
    [undefined] ([None]). *)
Fixpoint find_section (button : option node)
    (sections : list (string * list node))
    (index : option Z) (section : option string) : option Z * option string :=
  match sections with
  | [] => (index, section)
  | (currentSection, sectionButtons) :: rest =>
      let index := indexOf sectionButtons button in
      if -1 <? index then (Some index, Some currentSection)
      else find_section button rest (Some index) section
  end.

Definition getDefaultButton (this : widget) : option node :=
  _defaultButton this.

Section Removal.

Variable Y_Button_getNode : config -> node.

(** [removeButton(button, section)].  Reading a property of [undefined]
    raises a TypeError: [buttons[section][index]] and
    [buttons[section].splice] when the section is not there, and
    [button.remove] in [_uiRemoveButton] when no button was found under a
    name or an index and the listener is bound (the call has stored the new
    buttons by then; a call that raises leaves no widget here).  The
    sections are searched in the order of the map's keys, which tells only
    when the button is in more than one section. *)
Definition removeButton (button : button_ref) (section : option string)
    (this : widget) : outcome widget :=
  let buttons := get_buttons this in
  let found : outcome (option node * string * Z) :=
    match button with
    | RIndex index =>
        let section := key_of (or_else section (Some DEFAULT_BUTTONS_SECTION)) in
        match buttons !! section with
        | Some arr => Returned (item arr index, section, index)
        | None => Raised "TypeError"
        end
    | RNode n =>
        let '(index, section) :=
          find_section (Some n) (map_to_list buttons) None section in
        Returned (Some n, key_of section, default 0 index)
    | RName name =>
        let button := _buttonsMap this !! name in
        let '(index, section) :=
          find_section button (map_to_list buttons) None section in
        Returned (button, key_of section, default 0 index)
    end in
  match found with
  | Raised message => Raised message
  | Returned (button, section, index) =>
      match buttons !! section with
      | None => Raised "TypeError"
      | Some arr =>
          let buttons := <[section := splice_remove arr index]> buttons in
          match button with
          | Some n =>
              Returned (set_buttons Y_Button_getNode (of_nodes buttons)
                                    (SrcRemove n section index) this)
          | None =>
              if after_buttonsChange this then Raised "TypeError"
              else Returned (with_buttons
                               (_setButtons Y_Button_getNode this (of_nodes buttons))
                               this)
          end
      end
  end.

(** Where the setter's loop puts a button, and the node it puts there; and
    the nodes of a list of buttons that it puts in a section, in the order
    of the list. *)
Definition placement (this : widget) (currentSection : option string)
    (button : button_arg) : string * node :=
  let '(n, section) := resolve Y_Button_getNode this button currentSection in
  (key_of (or_else section (Some DEFAULT_BUTTONS_SECTION)), n).

Definition placed_in (this : widget) (currentSection : option string)
    (l : list button_arg) (section : string) : list node :=
  snd <$> filter (fun p => p.1 = section) (placement this currentSection <$> l).

End Removal.

(** A state with one section given new buttons; a section left without
    buttons is not kept. *)
Definition put_section (s : string) (arr : list node)
    (b : gmap string (list node)) : gmap string (list node) :=
  match arr with
  | [] => delete s b
  | _ => <[s := arr]> b
  end.

(** The buttons of a state and the names they are mapped under. *)
Definition name_key (n : node) : string := key_of (_getButtonName (IsNode n)).

Definition holds (b : gmap string (list node)) (n : node) : Prop :=
  exists section arr, b !! section = Some arr /\ n ∈ arr.

(** The nodes of a state, with those of the section being walked. *)
Definition held (m : gmap string (list node)) (seen : list node) (n : node)
    : Prop :=
  holds m n \/ n ∈ seen.

(** What [_mapButtons] keeps while it walks the buttons. *)
Definition mapped (w : widget) (m : gmap string (list node))
    (seen : list node) (r : widget) : Prop :=
  (buttons r = buttons w /\ after_buttonsChange r = after_buttonsChange w /\
   ui r = ui w /\ BUTTONS r = BUTTONS w /\ _stdModNode r = _stdModNode w) /\
  (forall k n, _buttonsMap r !! k = Some n -> name_key n = k /\ held m seen n) /\
  (forall n, held m seen n -> is_Some (_buttonsMap r !! name_key n)) /\
  (forall d, _defaultButton r = Some d ->
     held m seen d /\ _getButtonDefault (IsNode d) = true) /\
  (forall n, held m seen n -> _getButtonDefault (IsNode n) = true ->
     is_Some (_defaultButton r)).

(** *** The getter on a store

    [get('buttons')] hands an object to the caller, who may go on to change
    it.  To tell the object handed out from the one the attribute holds,
    objects and arrays live in a store here and are held by reference. *)
Module Store.

Definition loc := positive.

Inductive cell :=
| Obj (fields : gmap string loc)
| Arr (elems : list node).

Abbreviation store := (gmap loc cell).

(** [{}], [[]] and [concat()] make a new object in the store. *)
Definition alloc (c : cell) (h : store) : loc * store :=
  let l := fresh (dom h) in (l, <[l := c]> h).

(** [o[k] = v] *)
Definition set_field (o : loc) (k : string) (v : loc) (h : store) : store :=
  match h !! o with
  | Some (Obj fields) => <[o := Obj (<[k := v]> fields)]> h
  | _ => h
  end.

(** The callback given to [YObject.each]:
    [buttonsCopy[section] = sectionButtons.concat()].  A section that is not
    an array has no [concat], and the call raises a TypeError ([None]). *)
Definition copy_section (buttonsCopy : loc) (section : string)
    (sectionButtons : loc) (acc : option store) : option store :=
  match acc with
  | None => None
  | Some h =>
      match h !! sectionButtons with
      | Some (Arr elems) =>
          let '(a, h) := alloc (Arr (elems ++ [])) h in
          Some (set_field buttonsCopy section a h)
      | _ => None
      end
  end.

Definition _getButtons (buttons : loc) (h : store) : option (loc * store) :=
  match h !! buttons with
  | Some (Obj fields) =>
      let '(buttonsCopy, h) := alloc (Obj ∅) h in
      match map_fold (copy_section buttonsCopy) (Some h) fields with
      | Some h => Some (buttonsCopy, h)
      | None => None
      end
  | _ => None
  end.

(** What an object of arrays holds, read through the store. *)
Definition read_array (h : store) (a : loc) : option (list node) :=
  match h !! a with
  | Some (Arr elems) => Some elems
  | _ => None
  end.

Definition read_buttons (o : loc) (h : store)
    : option (gmap string (list node)) :=
  match h !! o with
  | Some (Obj fields) => Some (omap (read_array h) fields)
  | _ => None
  end.

(** A buttons state: an object all of whose properties are arrays. *)
Definition is_buttons (o : loc) (h : store) : Prop :=
  ∃ fields, h !! o = Some (Obj fields) ∧
            ∀ k a, fields !! k = Some a → is_Some (read_array h a).

(** What a caller can do to an object or an array it holds: set or delete
    a property, or change the elements of an array ([push], [splice],
    [sort], [arr[i] = ..], [arr.length = ..]). *)
Inductive mutation :=
| SetField (o : loc) (k : string) (v : loc)
| DeleteField (o : loc) (k : string)
| SetElems (a : loc) (elems : list node).

Definition target (m : mutation) : loc :=
  match m with
  | SetField o _ _ => o
  | DeleteField o _ => o
  | SetElems a _ => a
  end.

Definition mutate (h : store) (m : mutation) : store :=
  match m with
  | SetField o k v => set_field o k v h
  | DeleteField o k =>
      match h !! o with
      | Some (Obj fields) => <[o := Obj (delete k fields)]> h
      | _ => h
      end
  | SetElems a elems =>
      match h !! a with
      | Some (Arr _) => <[a := Arr elems]> h
      | _ => h
      end
  end.

(** An object together with the arrays it holds. *)
Definition footprint (o : loc) (h : store) : gset loc :=
  match h !! o with
  | Some (Obj fields) => {[o]} ∪ map_img fields
  | _ => {[o]}
  end.

(** [h'] holds everything [h] holds, unchanged. *)
Definition extends (h h' : store) : Prop :=
  forall l, l ∈ dom h -> h' !! l = h !! l.

(** What the loop of the getter has built once the sections [done] have been
    walked: the copy holds a new array for each of them, with the elements
    of the original, and nothing of the store [h0] has changed. *)
Definition copied (h0 : store) (copy : loc) (done : gmap string loc)
    (h : store) : Prop :=
  (copy ∉ dom h0) /\
  extends h0 h /\
  exists fields,
    h !! copy = Some (Obj fields) /\
    (forall k, fields !! k = None <-> done !! k = None) /\
    (forall k a', fields !! k = Some a' ->
       (a' ∉ dom h0) /\ (a' ≠ copy) /\
       exists a elems, done !! k = Some a /\
                       h0 !! a = Some (Arr elems) /\ h !! a' = Some (Arr elems)).

(** A store for the examples: the state [{footer: [ok, cancel]}]. *)
Definition sample_store : store :=
  {[ 1%positive := Obj {[ "footer"%string := 2%positive ]};
     2%positive := Arr [ok_node; cancel_node] ]}.

End Store.

End WidgetButtons.

(* ===================================================================== *)
(** ** ScrollView *)
(* ===================================================================== *)

Module ScrollView.

(** The scrollview widget itself is not among the sources; its unit tests
    are.  The definitions below follow the description of the widget and the
    calls and values of those tests. *)

Inductive dim := DimX | DimY.

(** Modelled from the spec: the gesture state, "ephemeral per-interaction
    record (start/end client coordinates, deltas, axis lock, flick
    velocity)", with the fields the test "Gesture start should create a
    _gesture object" reads. *)
Record gesture := {
  axis : option dim;
  startX : Z;
  startY : Z;
  startClientX : Z;
  startClientY : Z;
  endClientX : option Z;
  endClientY : option Z;
  deltaX : option Z;
  deltaY : option Z;
  flick : option Z
}.

(** Modelled from the spec: a scrollview as the tests observe it: the two
    offsets, the [disabled] attribute, the [axis] attribute, the upper scroll
    bounds [_maxScrollX] and [_maxScrollY] (the lower bounds are zero), the
    gesture state and whether a flick is in progress. *)
Record scrollview := {
  scrollX : Z;
  scrollY : Z;
  disabled : bool;
  axis_x : bool;
  axis_y : bool;
  _maxScrollX : Z;
  _maxScrollY : Z;
  _gesture : option gesture;
  _flickAnim : bool
}.

Definition with_scrollX (x : Z) (sv : scrollview) : scrollview :=
  {| scrollX := x; scrollY := scrollY sv; disabled := disabled sv;
     axis_x := axis_x sv; axis_y := axis_y sv;
     _maxScrollX := _maxScrollX sv; _maxScrollY := _maxScrollY sv;
     _gesture := _gesture sv; _flickAnim := _flickAnim sv |}.

Definition with_scrollY (y : Z) (sv : scrollview) : scrollview :=
  {| scrollX := scrollX sv; scrollY := y; disabled := disabled sv;
     axis_x := axis_x sv; axis_y := axis_y sv;
     _maxScrollX := _maxScrollX sv; _maxScrollY := _maxScrollY sv;
     _gesture := _gesture sv; _flickAnim := _flickAnim sv |}.

Definition with_disabled (d : bool) (sv : scrollview) : scrollview :=
  {| scrollX := scrollX sv; scrollY := scrollY sv; disabled := d;
     axis_x := axis_x sv; axis_y := axis_y sv;
     _maxScrollX := _maxScrollX sv; _maxScrollY := _maxScrollY sv;
     _gesture := _gesture sv; _flickAnim := _flickAnim sv |}.

Definition with_gesture (g : option gesture) (anim : bool) (sv : scrollview)
    : scrollview :=
  {| scrollX := scrollX sv; scrollY := scrollY sv; disabled := disabled sv;
     axis_x := axis_x sv; axis_y := axis_y sv;
     _maxScrollX := _maxScrollX sv; _maxScrollY := _maxScrollY sv;
     _gesture := g; _flickAnim := anim |}.

(** Modelled from the spec: [set('scrollX', x)], the attribute setter of
    the scrollview, which is not in the sources.  "Silent no-ops when
    disabled state is set (disabled scrollview ignores scroll/gesture
    calls)"; otherwise the offset is the value set, with no bound applied
    (the tests read back -100 after setting it). *)
Definition set_scrollX (x : Z) (sv : scrollview) : scrollview :=
  if disabled sv then sv else with_scrollX x sv.

(** Modelled from the spec: [set('scrollY', y)], as [set('scrollX', x)]. *)
Definition set_scrollY (y : Z) (sv : scrollview) : scrollview :=
  if disabled sv then sv else with_scrollY y sv.

(** Modelled from the spec: [set('disabled', d)], not in the sources. *)
Definition set_disabled (d : bool) (sv : scrollview) : scrollview :=
  with_disabled d sv.

(** Modelled from the spec: [scrollTo(x, y)], not in the sources; [null]
    ([None]) leaves an axis where it is, and a disabled scrollview ignores
    the call. *)
Definition scrollTo (x y : option Z) (sv : scrollview) : scrollview :=
  if disabled sv then sv
  else
    let sv := match x with Some x => set_scrollX x sv | None => sv end in
    match y with Some y => set_scrollY y sv | None => sv end.

(** Into the interval from [lo] to [hi]. *)
Definition constrain (v lo hi : Z) : Z := Z.max lo (Z.min v hi).

(** Modelled from the spec: [_snapBack], not in the sources.  "Snap-back:
    animated correction returning an over-scrolled view to its bounds": each
    offset is set to the nearest value between zero and its maximum. *)
Definition _snapBack (sv : scrollview) : scrollview :=
  let sv := set_scrollX (constrain (scrollX sv) 0 (_maxScrollX sv)) sv in
  set_scrollY (constrain (scrollY sv) 0 (_maxScrollY sv)) sv.

(** The mock event of the mousewheel tests ([getMockMousewheelEvent]). *)
Record wheel_event := { wheelDelta : Z }.

(** Modelled from the spec: the "mousewheel step size", which the tests put
    at 10. *)
Definition WHEEL_STEP : Z := 10.

(** Modelled from the spec: [_mousewheel], not in the sources.  On a
    scrollview that scrolls vertically [scrollY] is set one step further, up
    for a positive wheel delta and down otherwise, and not below zero; like
    every scroll call it goes through the setter, which a disabled
    scrollview ignores. *)
Definition _mousewheel (e : wheel_event) (sv : scrollview) : scrollview :=
  if axis_y sv then
    let scrollToY :=
      if 0 <? wheelDelta e then scrollY sv - WHEEL_STEP
      else scrollY sv + WHEEL_STEP in
    set_scrollY (Z.max 0 scrollToY) sv
  else sv.

(** The mock event of the gesture tests ([getMockGestureEvent]). *)
Record gesture_event := { clientX : Z; clientY : Z }.

(** Modelled from the spec: [_onGestureMoveStart], not in the sources.  A
    disabled scrollview answers [false] ("disabled scrollview ignores
    scroll/gesture calls"); otherwise a flick in progress is cancelled, a
    new gesture record is kept and nothing is returned. *)
Definition _onGestureMoveStart (e : gesture_event) (sv : scrollview)
    : option bool * scrollview :=
  if disabled sv then (Some false, sv)
  else
    (None,
     with_gesture
       (Some {| axis := None;
                startX := scrollX sv; startY := scrollY sv;
                startClientX := clientX e; startClientY := clientY e;
                endClientX := None; endClientY := None;
                deltaX := None; deltaY := None; flick := None |})
       false sv).

(** The helper of the tests, [renderNewScrollview(axis)]: a rendered
    scrollview that scrolls on the given axis, enabled and at offset zero;
    its scroll bounds are those of the rendered content. *)
Definition renderNewScrollview (a : dim) (maxScrollX maxScrollY : Z)
    : scrollview :=
  {| scrollX := 0; scrollY := 0; disabled := false;
     axis_x := match a with DimX => true | DimY => false end;
     axis_y := match a with DimX => false | DimY => true end;
     _maxScrollX := maxScrollX; _maxScrollY := maxScrollY;
     _gesture := None; _flickAnim := false |}.

Section Frames.

(** The flick a gesture event carries: its axis and its velocity. *)
Record flick_event := { flick_axis : dim; velocity : Z }.

(** The frame loop of a flick ("a decaying-velocity animation frame loop
    until velocity drops below a threshold or bounds are hit"), run by the
    host's timers. *)
Variable flick_frames : flick_event -> scrollview -> scrollview.

(** Modelled from the spec: [_flick], not in the sources.  A disabled
    scrollview answers [false]; otherwise the frame loop starts and nothing
    is returned. *)
Definition _flick (e : flick_event) (sv : scrollview)
    : option bool * scrollview :=
  if disabled sv then (Some false, sv)
  else (None, flick_frames e sv).

End Frames.

End ScrollView.

(* ===================================================================== *)
(** * Properties *)
(* ===================================================================== *)

Module StackedDataFacts.
Import StackedData.

Lemma longest_from (ks : keys_t) (len : nat) :
  fold_left (fun len kv => Nat.max len (length (snd kv))) ks len
  = Nat.max len (longest_length ks).
Proof.
  unfold longest_length.
  revert len. induction ks as [|kv ks IH]; intros len; simpl.
  - lia.
  - rewrite IH. lia.
Qed.

Lemma longest_is_longest_length (ks : keys_t) : longest ks = longest_length ks.
Proof. unfold longest. rewrite longest_from. lia. Qed.

Lemma series_no_longer (ks : keys_t) (key : string) (arr : series) :
  In (key, arr) ks -> (length arr <= longest_length ks)%nat.
Proof.
  unfold longest_length.
  induction ks as [|kv ks IH]; simpl; [tauto|].
  intros [->|Hin]; simpl; [lia|]. specialize (IH Hin). lia.
Qed.

Lemma index_past_end (arr : series) (i : nat) :
  (length arr <= i)%nat -> index arr i = Undefined.
Proof. intros H. unfold index. now apply nth_overflow. Qed.

Lemma index_in (arr : series) (i : nat) (n : Z) :
  index arr i = Num n -> In (Num n) arr.
Proof.
  unfold index. intros H.
  destruct (Nat.lt_ge_cases i (length arr)) as [Hlt|Hge].
  - rewrite <- H. now apply nth_In.
  - rewrite nth_overflow in H by assumption. discriminate.
Qed.

Lemma numbers_at_in (ks : keys_t) (i : nat) (n : Z) :
  In n (numbers_at ks i) ->
  exists key arr, In (key, arr) ks /\ index arr i = Num n.
Proof.
  unfold numbers_at. rewrite in_flat_map.
  intros [[key arr] [Hin Hn]]. simpl in Hn.
  exists key, arr. split; [assumption|].
  destruct (index arr i); simpl in Hn; try tauto.
  destruct Hn as [->|[]]. reflexivity.
Qed.

Lemma numbers_at_past_end (ks : keys_t) (i : nat) :
  (longest_length ks <= i)%nat -> numbers_at ks i = [].
Proof.
  intros Hi. destruct (numbers_at ks i) as [|n l] eqn:E; [reflexivity|].
  destruct (numbers_at_in ks i n) as (key & arr & Hin & Hn).
  { rewrite E. now left. }
  pose proof (series_no_longer _ _ _ Hin).
  rewrite index_past_end in Hn by lia. discriminate.
Qed.

Lemma sum_app (l1 l2 : list Z) : sum (l1 ++ l2) = sum l1 + sum l2.
Proof. unfold sum. induction l1; simpl; lia. Qed.

Lemma positive_sum_cons (kv : string * series) (ks : keys_t) (i : nat) :
  positive_sum (kv :: ks) i
  = match index (snd kv) i with
    | Num n => if 0 <=? n then n + positive_sum ks i else positive_sum ks i
    | _ => positive_sum ks i
    end.
Proof.
  unfold positive_sum, numbers_at. simpl.
  destruct (index (snd kv) i) as [n| |]; simpl; try reflexivity.
  destruct (Z.leb_spec 0 n).
  - rewrite filter_cons_True by assumption. reflexivity.
  - rewrite filter_cons_False by lia. reflexivity.
Qed.

Lemma negative_sum_cons (kv : string * series) (ks : keys_t) (i : nat) :
  negative_sum (kv :: ks) i
  = match index (snd kv) i with
    | Num n => if 0 <=? n then negative_sum ks i else n + negative_sum ks i
    | _ => negative_sum ks i
    end.
Proof.
  unfold negative_sum, numbers_at. simpl.
  destruct (index (snd kv) i) as [n| |]; simpl; try reflexivity.
  destruct (Z.leb_spec 0 n).
  - rewrite filter_cons_False by lia. reflexivity.
  - rewrite filter_cons_True by assumption. reflexivity.
Qed.

Lemma stack_step_cases (i : nat) (pos neg : Z) (kv : string * series) :
  stack_step i (pos, neg) kv
  = match index (snd kv) i with
    | Num n => if 0 <=? n then (pos + n, neg) else (pos, neg + n)
    | _ => (pos, neg)
    end.
Proof. unfold stack_step. destruct (index (snd kv) i); reflexivity. Qed.

(** The inner loop adds the two stacks of the remaining series to what it
    has so far. *)
Lemma stack_from (ks : keys_t) (i : nat) (pos neg : Z) :
  fold_left (stack_step i) ks (pos, neg)
  = (pos + positive_sum ks i, neg + negative_sum ks i).
Proof.
  revert pos neg. induction ks as [|kv ks IH]; intros pos neg.
  - simpl. unfold positive_sum, negative_sum. simpl. f_equal; lia.
  - cbn [fold_left]. rewrite positive_sum_cons, negative_sum_cons.
    rewrite stack_step_cases.
    destruct (index (snd kv) i) as [n| |]; rewrite ?IH; try reflexivity.
    destruct (0 <=? n); rewrite IH; f_equal; lia.
Qed.

Lemma stack_at_sums (ks : keys_t) (i : nat) :
  stack_at ks i = (positive_sum ks i, negative_sum ks i).
Proof. unfold stack_at. rewrite stack_from. reflexivity. Qed.

Lemma positive_sum_nonneg (ks : keys_t) (i : nat) : 0 <= positive_sum ks i.
Proof.
  induction ks as [|kv ks IH]; [unfold positive_sum; simpl; lia|].
  rewrite positive_sum_cons. destruct (index (snd kv) i) as [n| |]; try assumption.
  destruct (Z.leb_spec 0 n); lia.
Qed.

Lemma negative_sum_nonpos (ks : keys_t) (i : nat) : negative_sum ks i <= 0.
Proof.
  induction ks as [|kv ks IH]; [unfold negative_sum; simpl; lia|].
  rewrite negative_sum_cons. destruct (index (snd kv) i) as [n| |]; try assumption.
  destruct (Z.leb_spec 0 n); lia.
Qed.

(** One turn of the outer loop, once the accumulators straddle zero. *)
Lemma bounds_step_sums (ks : keys_t) (max min : Z) (i : nat) :
  0 <= max -> min <= 0 ->
  bounds_step ks (max, min) i
  = (Z.max max (positive_sum ks i), Z.min min (negative_sum ks i)).
Proof.
  intros Hmax Hmin. unfold bounds_step. rewrite stack_at_sums.
  pose proof (positive_sum_nonneg ks i). pose proof (negative_sum_nonpos ks i).
  destruct (Z.ltb_spec 0 (positive_sum ks i)),
           (Z.ltb_spec (negative_sum ks i) 0); f_equal; lia.
Qed.

(** What the outer loop computes over a list of indices. *)
Lemma bounds_from (ks : keys_t) (l : list nat) (max min : Z) :
  0 <= max -> min <= 0 ->
  let r := fold_left (bounds_step ks) l (max, min) in
  (max <= fst r /\ snd r <= min) /\
  (forall i, In i l -> positive_sum ks i <= fst r /\ snd r <= negative_sum ks i) /\
  (fst r = max \/ exists i, In i l /\ fst r = positive_sum ks i) /\
  (snd r = min \/ exists i, In i l /\ snd r = negative_sum ks i).
Proof.
  revert max min. induction l as [|i l IH]; intros max min Hmax Hmin;
    cbn zeta; cbn [fold_left].
  - simpl. repeat split; auto; try lia; tauto.
  - rewrite bounds_step_sums by assumption.
    pose proof (positive_sum_nonneg ks i) as Hp.
    pose proof (negative_sum_nonpos ks i) as Hn.
    destruct (IH (Z.max max (positive_sum ks i)) (Z.min min (negative_sum ks i)))
      as ((Hge & Hle) & Hall & Hmx & Hmn); [lia|lia|].
    simpl in *. repeat split.
    + lia.
    + lia.
    + destruct H as [<-|Hin]; [lia|]. now apply Hall.
    + destruct H as [<-|Hin]; [lia|]. now apply Hall.
    + destruct Hmx as [E|(j & Hj & E)]; [|right; exists j; auto].
      destruct (Z.max_spec max (positive_sum ks i)) as [[_ E']|[_ E']];
        [right; exists i; split; [now left | congruence] | left; congruence].
    + destruct Hmn as [E|(j & Hj & E)]; [|right; exists j; auto].
      destruct (Z.min_spec min (negative_sum ks i)) as [[_ E']|[_ E']];
        [left; congruence | right; exists i; split; [now left | congruence]].
Qed.

Lemma actual_bounds (this : axis) :
  (_actualMaximum (_updateMinAndMax this), _actualMinimum (_updateMinAndMax this))
  = fold_left (bounds_step (keys this)) (seq 0 (longest (keys this))) (0, 0).
Proof.
  unfold _updateMinAndMax.
  destruct (fold_left _ _ _) as [max min]. reflexivity.
Qed.

(** The two bounds against the stacks of every index, also of those past the
    longest series, where both stacks are empty. *)
Lemma actual_bounds_spec (this : axis) :
  let ks := keys this in
  let r := _updateMinAndMax this in
  (0 <= _actualMaximum r /\ _actualMinimum r <= 0) /\
  (forall i, positive_sum ks i <= _actualMaximum r /\
             _actualMinimum r <= negative_sum ks i) /\
  (_actualMaximum r = 0 \/
   exists i, (i < longest ks)%nat /\ _actualMaximum r = positive_sum ks i) /\
  (_actualMinimum r = 0 \/
   exists i, (i < longest ks)%nat /\ _actualMinimum r = negative_sum ks i).
Proof.
  intros ks r.
  pose proof (actual_bounds this) as E. fold r in E. fold ks in E.
  destruct (bounds_from ks (seq 0 (longest ks)) 0 0) as (Hz & Hall & Hmx & Hmn);
    [lia|lia|].
  rewrite <- E in Hz, Hall, Hmx, Hmn. simpl in Hz, Hall, Hmx, Hmn.
  split; [lia|]. split; [|split].
  - intros i. destruct (Nat.lt_ge_cases i (longest ks)) as [Hlt|Hge].
    + apply Hall. apply in_seq. lia.
    + rewrite longest_is_longest_length in Hge.
      unfold positive_sum, negative_sum.
      rewrite (numbers_at_past_end ks i Hge). simpl. lia.
  - destruct Hmx as [?|(i & Hi & ?)]; [now left|].
    right. exists i. apply in_seq in Hi. split; [lia|assumption].
  - destruct Hmn as [?|(i & Hi & ?)]; [now left|].
    right. exists i. apply in_seq in Hi. split; [lia|assumption].
Qed.

Lemma sum_filter_none (P : Z -> Prop) `{forall n, Decision (P n)} (l : list Z) :
  (forall n, In n l -> ~ P n) -> sum (filter P l) = 0.
Proof.
  induction l as [|n l IH]; intros Hl; [reflexivity|].
  rewrite filter_cons_False by (apply Hl; now left).
  apply IH. intros m Hm. apply Hl. now right.
Qed.

(** C1.  For every keys mapping, [_updateMinAndMax] scans the indices below
    the length of the longest series; at each index its inner loop yields the
    sum of the values [>= 0] and the sum of the values [< 0] found there; the
    actual maximum is the largest of the positive sums and the actual minimum
    the smallest of the negative sums (both are zero when there is no index
    to scan). *)
Theorem updateMinAndMax_stacks (this : axis) :
  let ks := keys this in
  let r := _updateMinAndMax this in
  let len := longest ks in
  len = longest_length ks /\
  (forall i, stack_at ks i = (positive_sum ks i, negative_sum ks i)) /\
  (forall i, (i < len)%nat ->
     positive_sum ks i <= _actualMaximum r /\
     _actualMinimum r <= negative_sum ks i) /\
  ((0 < len)%nat ->
     (exists i, (i < len)%nat /\ _actualMaximum r = positive_sum ks i) /\
     (exists i, (i < len)%nat /\ _actualMinimum r = negative_sum ks i)) /\
  (len = 0%nat -> _actualMaximum r = 0 /\ _actualMinimum r = 0).
Proof.
  intros ks r len.
  destruct (actual_bounds_spec this) as (Hz & Hall & Hmx & Hmn).
  fold ks in Hall, Hmx, Hmn. fold r in Hz, Hall, Hmx, Hmn. fold len in Hmx, Hmn.
  split; [apply longest_is_longest_length|].
  split; [apply stack_at_sums|].
  split; [intros i _; apply Hall|].
  split.
  - intros Hlen. split.
    + destruct Hmx as [E|?]; [|assumption].
      exists 0%nat. split; [assumption|].
      pose proof (positive_sum_nonneg ks 0). pose proof (Hall 0%nat). lia.
    + destruct Hmn as [E|?]; [|assumption].
      exists 0%nat. split; [assumption|].
      pose proof (negative_sum_nonpos ks 0). pose proof (Hall 0%nat). lia.
  - intros Hlen. split.
    + destruct Hmx as [?|(i & Hi & _)]; [assumption|lia].
    + destruct Hmn as [?|(i & Hi & _)]; [assumption|lia].
Qed.

(** C9.  After every run of [_updateMinAndMax] the actual maximum is at
    least zero and the actual minimum at most zero; when every number in the
    data is strictly positive the minimum is zero, when every number is
    strictly negative the maximum is zero; an entry that is [NaN] or missing
    leaves both stacks as they are, so that the two bounds depend on the
    numbers of each index only. *)
Theorem updateMinAndMax_bounds_include_zero (this : axis) :
  let ks := keys this in
  let r := _updateMinAndMax this in
  0 <= _actualMaximum r /\
  _actualMinimum r <= 0 /\
  ((forall key arr n, In (key, arr) ks -> In (Num n) arr -> 0 < n) ->
   _actualMinimum r = 0) /\
  ((forall key arr n, In (key, arr) ks -> In (Num n) arr -> n < 0) ->
   _actualMaximum r = 0) /\
  (forall i acc kv, isNaN (index (snd kv) i) = true -> stack_step i acc kv = acc) /\
  (forall i acc key arr, (length arr <= i)%nat -> stack_step i acc (key, arr) = acc) /\
  (forall that,
     (forall i, numbers_at (keys that) i = numbers_at ks i) ->
     _actualMaximum (_updateMinAndMax that) = _actualMaximum r /\
     _actualMinimum (_updateMinAndMax that) = _actualMinimum r).
Proof.
  intros ks r.
  destruct (actual_bounds_spec this) as (Hz & Hall & Hmx & Hmn).
  fold ks in Hall, Hmx, Hmn. fold r in Hz, Hall, Hmx, Hmn.
  split; [lia|]. split; [lia|].
  split; [|split; [|split; [|split]]].
  - intros Hpos. destruct Hmn as [?|(i & _ & E)]; [assumption|].
    rewrite E. unfold negative_sum. apply sum_filter_none.
    intros n Hn. destruct (numbers_at_in ks i n Hn) as (key & arr & Hin & Hix).
    apply index_in in Hix. specialize (Hpos key arr n Hin Hix). lia.
  - intros Hneg. destruct Hmx as [?|(i & _ & E)]; [assumption|].
    rewrite E. unfold positive_sum. apply sum_filter_none.
    intros n Hn. destruct (numbers_at_in ks i n Hn) as (key & arr & Hin & Hix).
    apply index_in in Hix. specialize (Hneg key arr n Hin Hix). lia.
  - intros i [pos neg] kv Hnan. unfold stack_step. rewrite Hnan. reflexivity.
  - intros i [pos neg] key arr Hi. unfold stack_step. simpl.
    rewrite index_past_end by assumption. reflexivity.
  - intros that Hsame.
    destruct (actual_bounds_spec that) as (Hz' & Hall' & Hmx' & Hmn').
    assert (Hp : forall i, positive_sum (keys that) i = positive_sum ks i)
      by (intros i; unfold positive_sum; now rewrite Hsame).
    assert (Hn : forall i, negative_sum (keys that) i = negative_sum ks i)
      by (intros i; unfold negative_sum; now rewrite Hsame).
    split; apply Z.le_antisymm.
    + destruct Hmx' as [->|(i & _ & ->)]; [lia|]. rewrite Hp. apply Hall.
    + destruct Hmx as [->|(i & _ & ->)]; [lia|]. rewrite <- Hp. apply Hall'.
    + destruct Hmn as [->|(i & _ & ->)]; [lia|]. rewrite <- Hn. apply Hall'.
    + destruct Hmn' as [->|(i & _ & ->)]; [lia|]. rewrite Hn. apply Hall.
Qed.

(** *** One series, and one series more *)

Lemma positive_sum_app (ks1 ks2 : keys_t) (i : nat) :
  positive_sum (ks1 ++ ks2) i = positive_sum ks1 i + positive_sum ks2 i.
Proof.
  unfold positive_sum, numbers_at. now rewrite flat_map_app, filter_app, sum_app.
Qed.

Lemma negative_sum_app (ks1 ks2 : keys_t) (i : nat) :
  negative_sum (ks1 ++ ks2) i = negative_sum ks1 i + negative_sum ks2 i.
Proof.
  unfold negative_sum, numbers_at. now rewrite flat_map_app, filter_app, sum_app.
Qed.

Lemma positive_sum_nil (i : nat) : positive_sum [] i = 0.
Proof. reflexivity. Qed.

Lemma negative_sum_nil (i : nat) : negative_sum [] i = 0.
Proof. reflexivity. Qed.

Lemma in_series_index (arr : series) (n : Z) :
  In (Num n) arr -> exists i, index arr i = Num n.
Proof.
  intros H. destruct (In_nth arr (Num n) Undefined H) as (i & _ & Hi).
  now exists i.
Qed.

(** X1.  With a single series nothing is stacked: every number of the
    series lies between the actual minimum and the actual maximum, the
    maximum is zero or one of the numbers, and so is the minimum; that is,
    the bounds are the largest and the smallest number, widened to hold
    zero. *)
Theorem single_series_bounds (key : string) (arr : series)
    (sMin sMax : bool) (lo hi : Z) :
  let r := _updateMinAndMax
             {| keys := [(key, arr)]; setMin := sMin; setMax := sMax;
                _setMinimum := lo; _setMaximum := hi |} in
  (forall n, In (Num n) arr -> _actualMinimum r <= n <= _actualMaximum r) /\
  (_actualMaximum r = 0 \/ In (Num (_actualMaximum r)) arr) /\
  (_actualMinimum r = 0 \/ In (Num (_actualMinimum r)) arr).
Proof.
  intros r.
  destruct (actual_bounds_spec
              {| keys := [(key, arr)]; setMin := sMin; setMax := sMax;
                 _setMinimum := lo; _setMaximum := hi |})
    as (Hz & Hall & Hmx & Hmn).
  fold r in Hz, Hall, Hmx, Hmn. simpl in Hall, Hmx, Hmn.
  assert (Hp : forall i, positive_sum [(key, arr)] i
                         = match index arr i with
                           | Num n => if 0 <=? n then n else 0
                           | _ => 0
                           end).
  { intros i. rewrite positive_sum_cons, positive_sum_nil. simpl.
    destruct (index arr i) as [n| |]; try reflexivity.
    destruct (0 <=? n); lia. }
  assert (Hn : forall i, negative_sum [(key, arr)] i
                         = match index arr i with
                           | Num n => if 0 <=? n then 0 else n
                           | _ => 0
                           end).
  { intros i. rewrite negative_sum_cons, negative_sum_nil. simpl.
    destruct (index arr i) as [n| |]; try reflexivity.
    destruct (0 <=? n); lia. }
  split; [|split].
  - intros n Hin. destruct (in_series_index arr n Hin) as [i Hi].
    specialize (Hall i). rewrite Hp, Hn, Hi in Hall.
    destruct (Z.leb_spec 0 n); lia.
  - destruct Hmx as [?|(i & _ & E)]; [now left|].
    rewrite Hp in E. destruct (index arr i) as [n| |] eqn:Hi; try (now left).
    destruct (0 <=? n); [|now left].
    right. rewrite E. now apply index_in with i.
  - destruct Hmn as [?|(i & _ & E)]; [now left|].
    rewrite Hn in E. destruct (index arr i) as [n| |] eqn:Hi; try (now left).
    destruct (0 <=? n); [now left|].
    right. rewrite E. now apply index_in with i.
Qed.

(** X2.  One series more, wherever it comes among the others, never
    narrows the bounds: the actual maximum does not get smaller and the
    actual minimum does not get larger. *)
Theorem added_series_widens (ks1 ks2 : keys_t) (kv : string * series)
    (sMin sMax : bool) (lo hi : Z) :
  let before := _updateMinAndMax
                  {| keys := ks1 ++ ks2; setMin := sMin; setMax := sMax;
                     _setMinimum := lo; _setMaximum := hi |} in
  let after := _updateMinAndMax
                 {| keys := ks1 ++ kv :: ks2; setMin := sMin; setMax := sMax;
                    _setMinimum := lo; _setMaximum := hi |} in
  _actualMaximum before <= _actualMaximum after /\
  _actualMinimum after <= _actualMinimum before.
Proof.
  intros before after.
  destruct (actual_bounds_spec
              {| keys := ks1 ++ ks2; setMin := sMin; setMax := sMax;
                 _setMinimum := lo; _setMaximum := hi |})
    as (_ & _ & Hmx & Hmn).
  destruct (actual_bounds_spec
              {| keys := ks1 ++ kv :: ks2; setMin := sMin; setMax := sMax;
                 _setMinimum := lo; _setMaximum := hi |})
    as (Hz & Hall & _ & _).
  fold before in Hmx, Hmn. fold after in Hz, Hall. simpl in Hmx, Hmn, Hall.
  assert (Hp : forall i, positive_sum (ks1 ++ ks2) i
                         <= positive_sum (ks1 ++ kv :: ks2) i).
  { intros i. rewrite !positive_sum_app, (positive_sum_cons kv).
    pose proof (positive_sum_nonneg ks2 i).
    destruct (index (snd kv) i) as [n| |]; try lia.
    destruct (Z.leb_spec 0 n); lia. }
  assert (Hn : forall i, negative_sum (ks1 ++ kv :: ks2) i
                         <= negative_sum (ks1 ++ ks2) i).
  { intros i. rewrite !negative_sum_app, (negative_sum_cons kv).
    destruct (index (snd kv) i) as [n| |]; try lia.
    destruct (Z.leb_spec 0 n); lia. }
  split.
  - destruct Hmx as [->|(i & _ & ->)]; [lia|].
    specialize (Hall i). specialize (Hp i). lia.
  - destruct Hmn as [->|(i & _ & ->)]; [lia|].
    specialize (Hall i). specialize (Hn i). lia.
Qed.

(** X3.  The two actual bounds are those of the data, whatever minimum or
    maximum the user has set; [_roundMinAndMax] is given the set value for a
    bound that is set and the actual one otherwise, with the two flags; and
    with neither bound set the minimum it is given is at most zero and the
    maximum at least zero. *)
Theorem rounding_arguments (this : axis) :
  let r := _updateMinAndMax this in
  let data_only := _updateMinAndMax
                     {| keys := keys this; setMin := false; setMax := false;
                        _setMinimum := 0; _setMaximum := 0 |} in
  (_actualMaximum r = _actualMaximum data_only /\
   _actualMinimum r = _actualMinimum data_only) /\
  (round_setMin r = setMin this /\ round_setMax r = setMax this) /\
  round_max r = (if setMax this then _setMaximum this else _actualMaximum r) /\
  round_min r = (if setMin this then _setMinimum this else _actualMinimum r) /\
  (setMin this = false -> setMax this = false ->
   round_min r <= 0 <= round_max r /\
   round_min data_only = round_min r /\ round_max data_only = round_max r).
Proof.
  intros r data_only.
  destruct (actual_bounds_spec this) as (Hz & _). fold r in Hz.
  pose proof (actual_bounds this) as E. fold r in E.
  pose proof (actual_bounds
                {| keys := keys this; setMin := false; setMax := false;
                   _setMinimum := 0; _setMaximum := 0 |}) as E'.
  fold data_only in E'. simpl in E'. rewrite <- E in E'.
  injection E' as Emax Emin.
  assert (Hr : round_max r = (if setMax this then _setMaximum this else _actualMaximum r)
               /\ round_min r = (if setMin this then _setMinimum this else _actualMinimum r)
               /\ round_setMin r = setMin this /\ round_setMax r = setMax this).
  { subst r. unfold _updateMinAndMax.
    destruct (fold_left _ _ _) as [max min]. simpl. repeat split. }
  assert (Hd : round_max data_only = _actualMaximum data_only
               /\ round_min data_only = _actualMinimum data_only).
  { subst data_only. unfold _updateMinAndMax. simpl.
    destruct (fold_left _ _ _) as [max min]. simpl. split; reflexivity. }
  destruct Hr as (Hrmax & Hrmin & Hfmin & Hfmax). destruct Hd as [Hdmax Hdmin].
  repeat split; try congruence.
  - rewrite Hrmin, H. lia.
  - rewrite Hrmax, H0. lia.
  - rewrite Hdmin, Hrmin, H. congruence.
  - rewrite Hdmax, Hrmax, H0. congruence.
Qed.

(** A chart with the series [a = [3, -1, NaN]] and [b = [2, -4]]. *)
Example stacked_example :
  let r := _updateMinAndMax
             {| keys := [("a"%string, [Num 3; Num (-1); NaN]);
                         ("b"%string, [Num 2; Num (-4)])];
                setMin := false; setMax := false;
                _setMinimum := 0; _setMaximum := 0 |} in
  (_actualMaximum r, _actualMinimum r, round_min r, round_max r) = (5, -5, -5, 5).
Proof. reflexivity. Qed.

End StackedDataFacts.

Module CategoryImplFacts.
Import CategoryImpl.

Lemma positions_snoc (n : nat) :
  positions (S n) = positions n ++ [JNum (Z.of_nat n)].
Proof. unfold positions. rewrite seq_S, fmap_app. reflexivity. Qed.

Lemma positions_length (n : nat) : length (positions n) = n.
Proof. unfold positions. now rewrite length_fmap, length_seq. Qed.

Lemma positions_lookup (n i : nat) :
  (i < n)%nat -> positions n !! i = Some (JNum (Z.of_nat i)).
Proof.
  intros Hi. unfold positions.
  rewrite list_lookup_fmap, lookup_seq_lt by assumption. reflexivity.
Qed.

Lemma labels_of_length (key : string) (data : list object) :
  length (labels_of key data) = length data.
Proof. unfold labels_of. apply length_fmap. Qed.

Lemma labels_of_lookup (key : string) (data : list object) (i : nat) (obj : object) :
  data !! i = Some obj -> labels_of key data !! i = Some (prop obj key).
Proof.
  intros H. unfold labels_of. rewrite list_lookup_fmap, H. reflexivity.
Qed.

(** Writing at the index just past the end appends. *)
Lemma array_set_end (arr : array) (n : nat) (v : value) :
  length arr = n -> array_set arr n v = arr ++ [v].
Proof.
  intros <-. unfold array_set. destruct (decide _) as [?|_]; [lia|].
  now rewrite Nat.sub_diag.
Qed.

(** The loop, resumed after a prefix of the data has been walked. *)
Lemma project_loop_from (key : string) (done rest : list object) :
  fold_left (project_step key (done ++ rest))
            (seq (length done) (length rest))
            (Some (positions (length done), labels_of key done))
  = Some (positions (length (done ++ rest)), labels_of key (done ++ rest)).
Proof.
  revert done. induction rest as [|obj rest IH]; intros done.
  - simpl. now rewrite app_nil_r.
  - cbn [length seq fold_left].
    assert (Hstep :
      project_step key (done ++ obj :: rest)
        (Some (positions (length done), labels_of key done)) (length done)
      = Some (positions (length (done ++ [obj])), labels_of key (done ++ [obj]))).
    { unfold project_step.
      rewrite list_lookup_middle by reflexivity.
      rewrite (array_set_end (positions _)) by apply positions_length.
      rewrite (array_set_end (labels_of _ _)) by apply labels_of_length.
      rewrite length_app. simpl. rewrite Nat.add_1_r, positions_snoc.
      unfold labels_of. rewrite fmap_app. reflexivity. }
    rewrite Hstep.
    specialize (IH (done ++ [obj])).
    rewrite <- app_assoc in IH. simpl in IH.
    rewrite length_app in IH at 1. simpl in IH. rewrite Nat.add_1_r in IH.
    exact IH.
Qed.

Lemma project_loop_result (key : string) (data : list object) :
  project_loop key data = Some (positions (length data), labels_of key data).
Proof. exact (project_loop_from key [] data). Qed.

(** C2.  For every key and every data array of length [n], both
    [_setDataByKey] (on the cloned data) and [_getKeyArray] (on the data it
    is given) return, store under [_indices[key]] the positions
    [0, 1, ..., n-1], and store under [keys[key]], or return, the [n] labels
    obtained by reading the key's property of each element in order. *)
Theorem index_rebuilt (key : string) (data : list object) (this : axis) :
  (exists this',
     _setDataByKey key this = Some this' /\
     (exists ix, _indices this' = Some ix /\
                 ix !! key = Some (positions (length (_dataClone this)))) /\
     keys this' !! key = Some (labels_of key (_dataClone this))) /\
  (exists this',
     _getKeyArray key data this = Some (labels_of key data, this') /\
     (exists ix, _indices this' = Some ix /\
                 ix !! key = Some (positions (length data)))) /\
  (forall n, length (positions n) = n /\
             forall i, (i < n)%nat -> positions n !! i = Some (JNum (Z.of_nat i))) /\
  (length (labels_of key data) = length data /\
   forall i obj, data !! i = Some obj ->
                 labels_of key data !! i = Some (prop obj key)).
Proof.
  repeat split.
  - unfold _setDataByKey. rewrite app_nil_r, project_loop_result.
    eexists. split; [reflexivity|]. simpl. split.
    + eexists. split; [reflexivity|]. apply lookup_insert_eq.
    + rewrite app_nil_r. apply lookup_insert_eq.
  - unfold _getKeyArray. rewrite project_loop_result.
    eexists. split; [reflexivity|]. simpl.
    eexists. split; [reflexivity|]. apply lookup_insert_eq.
  - apply positions_length.
  - apply positions_lookup.
  - apply labels_of_length.
  - apply labels_of_lookup.
Qed.

(** Two data points read by the key ["day"]; the second has no such
    property. *)
Example index_rebuilt_example :
  let data := [ {[ "day"%string := JStr "Mon" ]};
                {[ "night"%string := JStr "Tue" ]} ] in
  _getKeyArray "day"
    data {| _indices := None; _dataClone := []; keys := ∅;
            _updateTotalDataFlag := false |}
  = Some ([JStr "Mon"; JUndefined],
          {| _indices := Some {[ "day"%string := [JNum 0; JNum 1] ]};
             _dataClone := []; keys := ∅; _updateTotalDataFlag := false |}).
Proof. vm_compute. reflexivity. Qed.

(** C8.  [getKeyValueAt(key, index)] returns [NaN] when the key is absent,
    when the index is outside the stored array, and whenever the stored
    label is falsy; it returns the stored label exactly when that label is
    truthy. *)
Theorem getKeyValueAt_falsy_is_NaN (this : axis) (key : string) (index : Z) :
  (keys this !! key = None -> getKeyValueAt key index this = JNaN) /\
  (forall arr, keys this !! key = Some arr ->
     (index < 0 \/ Z.of_nat (length arr) <= index ->
      getKeyValueAt key index this = JNaN) /\
     (forall label, 0 <= index -> arr !! Z.to_nat index = Some label ->
        (truthy label = false -> getKeyValueAt key index this = JNaN) /\
        (truthy label = true -> getKeyValueAt key index this = label))) /\
  truthy (JStr "") = false /\ truthy (JNum 0) = false /\ truthy JNull = false.
Proof.
  unfold getKeyValueAt. split; [|split].
  - intros ->. reflexivity.
  - intros arr ->. split.
    + intros Hout. unfold array_get.
      destruct (decide (0 <= index)) as [Hge|Hlt]; [|reflexivity].
      rewrite (lookup_ge_None_2 arr (Z.to_nat index)) by lia. reflexivity.
    + intros label Hge Hlabel. unfold array_get.
      destruct (decide (0 <= index)) as [_|?]; [|lia].
      rewrite Hlabel. simpl. split; intros ->; reflexivity.
  - repeat split.
Qed.

Example getKeyValueAt_example :
  let this := {| _indices := None; _dataClone := [];
                 keys := {[ "day"%string := [JStr "Mon"; JStr ""; JNum 0; JNull] ]};
                 _updateTotalDataFlag := false |} in
  map (fun i => getKeyValueAt "day" i this) [0; 1; 2; 3; 4; -1]
  = [JStr "Mon"; JNaN; JNaN; JNaN; JNaN; JNaN] /\
  getKeyValueAt "night" 0 this = JNaN.
Proof. vm_compute. split; reflexivity. Qed.

(** *** The labels, and the index read back *)

Lemma array_get_lookup (arr : array) (i : nat) (v : value) :
  arr !! i = Some v -> array_get arr (Z.of_nat i) = v.
Proof.
  intros H. unfold array_get. destruct (decide _) as [_|?]; [|lia].
  now rewrite Nat2Z.id, H.
Qed.

Lemma array_get_outside (arr : array) (index : Z) :
  index < 0 \/ Z.of_nat (length arr) <= index -> array_get arr index = JUndefined.
Proof.
  intros H. unfold array_get. destruct (decide _) as [?|_]; [|reflexivity].
  rewrite (lookup_ge_None_2 arr (Z.to_nat index)) by lia. reflexivity.
Qed.

(** X4.  [_updateMinAndMax] puts the data minimum at zero and the data
    maximum at the last index of the data: every index of the data lies
    between them, the label [getMaximumValue] returns is the one at the
    maximum, and there are maximum + 1 major units.  Without data the
    maximum is zero all the same, while there is no major unit and both
    [getMinimumValue] and [getMaximumValue] return [undefined]. *)
Theorem category_extent (data : array) :
  let e := _updateMinAndMax data in
  _dataMinimum e = 0 /\
  0 <= _dataMaximum e /\
  (forall i, (i < length data)%nat ->
             _dataMinimum e <= Z.of_nat i <= _dataMaximum e) /\
  (data ≠ [] ->
   _dataMaximum e = Z.of_nat (length data) - 1 /\
   getTotalMajorUnits data = _dataMaximum e + 1 /\
   getMaximumValue data = array_get data (_dataMaximum e) /\
   Some (getMaximumValue data) = last data /\
   Some (getMinimumValue data) = head data) /\
  (data = [] ->
   _dataMaximum e = 0 /\ getTotalMajorUnits data = 0 /\
   getMinimumValue data = JUndefined /\ getMaximumValue data = JUndefined).
Proof.
  intros e. subst e. unfold _updateMinAndMax, getTotalMajorUnits, getMaximumValue,
    getMinimumValue. simpl.
  split; [reflexivity|]. split; [lia|]. split; [intros i Hi; lia|]. split.
  - intros Hne. assert (Hlen : (0 < length data)%nat).
    { destruct data; [congruence|simpl; lia]. }
    rewrite Z.max_l by lia. repeat split; try lia.
    + rewrite last_lookup.
      destruct (lookup_lt_is_Some_2 data (pred (length data))) as [v Hv]; [lia|].
      rewrite Hv. f_equal.
      replace (Z.of_nat (length data) - 1) with (Z.of_nat (pred (length data))) by lia.
      now apply array_get_lookup.
    + destruct data as [|v data]; [congruence|reflexivity].
  - intros ->. repeat split.
Qed.

(** X5.  Asked for the labels of the indices 0, 1, ..., l-1 of an axis with
    [l] labels, [_getLabelByIndex] gives the data in order when the direction
    is "vertical" and the data in reverse order for any other direction (or
    none); index 0 gives what [getMinimumValue] returns in the first case and
    what [getMaximumValue] returns in the second. *)
Theorem labels_by_index (data : array) (direction : option string) :
  let l := Z.of_nat (length data) in
  ((fun i => _getLabelByIndex (Z.of_nat i) l direction data) <$> seq 0 (length data))
  = (if is_vertical direction then data else reverse data) /\
  is_vertical (Some "vertical"%string) = true /\
  is_vertical None = false /\
  _getLabelByIndex 0 l (Some "vertical"%string) data = getMinimumValue data /\
  _getLabelByIndex 0 l None data = getMaximumValue data.
Proof.
  intros l. split; [|repeat split].
  apply list_eq. intros i. rewrite list_lookup_fmap.
  destruct (Nat.lt_ge_cases i (length data)) as [Hlt|Hge].
  - rewrite lookup_seq_lt by assumption. simpl. unfold _getLabelByIndex.
    destruct (is_vertical direction).
    + destruct (lookup_lt_is_Some_2 data i Hlt) as [v Hv].
      rewrite Hv. f_equal. now apply array_get_lookup.
    + rewrite reverse_lookup by assumption.
      destruct (lookup_lt_is_Some_2 data (length data - S i)) as [v Hv]; [lia|].
      rewrite Hv. f_equal.
      replace (l - (Z.of_nat i + 1)) with (Z.of_nat (length data - S i))
        by (subst l; lia).
      now apply array_get_lookup.
  - rewrite lookup_seq_ge by assumption. simpl. symmetry.
    destruct (is_vertical direction); apply lookup_ge_None_2;
      rewrite ?length_reverse; assumption.
Qed.

Lemma setDataByKey_result (key : string) (this : axis) :
  _setDataByKey key this
  = Some {| _indices := Some (<[key := positions (length (_dataClone this))]>
                                (indices_or_empty this));
            _dataClone := _dataClone this;
            keys := <[key := labels_of key (_dataClone this)]> (keys this);
            _updateTotalDataFlag := true |}.
Proof.
  unfold _setDataByKey. now rewrite app_nil_r, project_loop_result, app_nil_r.
Qed.

Section Keys.

Variable get_keys : axis -> axis.

(** X6.  Once [_setDataByKey(key)] has run, [getDataByKey(key)] returns the
    positions 0, 1, ..., n-1 of the cloned data without touching the axis,
    and for any other key it returns what the index held for it before:
    its array, or [null]. *)
Theorem getDataByKey_after_set (key : string) (this : axis) :
  exists this',
    _setDataByKey key this = Some this' /\
    getDataByKey get_keys key this'
    = (Some (Some (positions (length (_dataClone this)))), this') /\
    forall other, other ≠ key ->
      getDataByKey get_keys other this'
      = (Some (indices_or_empty this !! other), this').
Proof.
  eexists. split; [apply setDataByKey_result|].
  unfold getDataByKey. simpl. split.
  - now rewrite lookup_insert_eq.
  - intros other Hne. now rewrite lookup_insert_ne.
Qed.

End Keys.

(** X7.  Once [_setDataByKey(key)] has run, [getKeyValueAt(key, i)] is the
    key's property of the [i]-th element of the cloned data when that
    property is truthy, and [NaN] when it is falsy or missing or when [i] is
    not an index of the data; for any other key [getKeyValueAt] returns what
    it returned before. *)
Theorem getKeyValueAt_after_set (key : string) (this : axis) :
  exists this',
    _setDataByKey key this = Some this' /\
    (forall i obj, _dataClone this !! i = Some obj ->
       getKeyValueAt key (Z.of_nat i) this'
       = if truthy (prop obj key) then prop obj key else JNaN) /\
    (forall index, index < 0 \/ Z.of_nat (length (_dataClone this)) <= index ->
       getKeyValueAt key index this' = JNaN) /\
    (forall other index, other ≠ key ->
       getKeyValueAt other index this' = getKeyValueAt other index this).
Proof.
  eexists. split; [apply setDataByKey_result|].
  unfold getKeyValueAt. simpl. split; [|split].
  - intros i obj Hobj. rewrite lookup_insert_eq.
    now rewrite (array_get_lookup _ i (prop obj key)) by now apply labels_of_lookup.
  - intros index Hout. rewrite lookup_insert_eq.
    rewrite array_get_outside by now rewrite labels_of_length.
    reflexivity.
  - intros other index Hne. now rewrite lookup_insert_ne.
Qed.

(** X8.  Rebuilding the index of a key a second time changes nothing, and
    rebuilding the indices of two different keys gives the same axis in
    either order. *)
Theorem setDataByKey_idempotent_commutes (key other : string) (this : axis) :
  (_setDataByKey key this ≫= _setDataByKey key) = _setDataByKey key this /\
  (key ≠ other ->
   (_setDataByKey key this ≫= _setDataByKey other)
   = (_setDataByKey other this ≫= _setDataByKey key)).
Proof.
  rewrite !setDataByKey_result. simpl. rewrite !setDataByKey_result.
  unfold indices_or_empty. simpl. split.
  - now rewrite !insert_insert_eq.
  - intros Hne.
    rewrite (insert_insert_ne _ other key) by congruence.
    rewrite (insert_insert_ne (keys this) other key) by congruence.
    reflexivity.
Qed.

End CategoryImplFacts.

Module WidgetButtonsFacts.
Import WidgetButtons.

(** C6.  The constructor raises the host framework's error when
    [_stdModNode] is absent, that is, when WidgetStdMod has not been mixed
    in before WidgetButtons, and it returns without an error when
    [_stdModNode] is there. *)
Theorem constructor_requires_stdmod (this : widget) :
  (_stdModNode this = None ->
   WidgetButtons this
   = Raised "WidgetStdMod must be added to the Widget before WidgetButtons.") /\
  (forall n, _stdModNode this = Some n -> WidgetButtons this = Returned this) /\
  ((exists message, WidgetButtons this = Raised message) <->
   _stdModNode this = None).
Proof.
  unfold WidgetButtons, Y_error.
  destruct (_stdModNode this) as [n|]; repeat split; try congruence.
  - intros [message H]. discriminate.
  - intros _. eexists. reflexivity.
Qed.

(** *** The getter hands out a copy *)

Module StoreFacts.
Import Store.

Lemma extends_refl (h : store) : extends h h.
Proof. intros l _. reflexivity. Qed.

Lemma extends_dom (h h' : store) (l : loc) :
  extends h h' -> l ∈ dom h -> l ∈ dom h'.
Proof.
  intros He Hl. apply elem_of_dom. rewrite (He l Hl). now apply elem_of_dom.
Qed.

Lemma extends_insert_new (h h' : store) (l : loc) (c : cell) :
  extends h h' -> l ∉ dom h -> extends h (<[l := c]> h').
Proof.
  intros He Hl x Hx. rewrite lookup_insert_ne by (intros ->; contradiction).
  now apply He.
Qed.

Lemma read_array_Some (h : store) (a : loc) (elems : list node) :
  read_array h a = Some elems <-> h !! a = Some (Arr elems).
Proof.
  unfold read_array. destruct (h !! a) as [[fields|elems']|]; split; congruence.
Qed.

Lemma read_array_extends (h h' : store) (a : loc) :
  extends h h' -> is_Some (read_array h a) -> read_array h' a = read_array h a.
Proof.
  intros He [elems Ha]. unfold read_array in *.
  rewrite He; [reflexivity|].
  apply elem_of_dom. destruct (h !! a); [eauto|discriminate].
Qed.

(** The content of a buttons state depends on the object and on its arrays
    only. *)
Lemma read_buttons_extends (h h' : store) (o : loc) :
  is_buttons o h -> extends h h' -> read_buttons o h' = read_buttons o h.
Proof.
  intros (fields & Ho & Harr) He. unfold read_buttons.
  rewrite He by (apply elem_of_dom; eauto). rewrite Ho. f_equal.
  apply map_eq. intros k. rewrite !lookup_omap.
  destruct (fields !! k) as [a|] eqn:Hk; simpl; [|reflexivity].
  apply read_array_extends; eauto.
Qed.

(** A mutation changes the store at its target only. *)
Lemma mutate_elsewhere (h : store) (m : mutation) (l : loc) :
  l ≠ target m -> mutate h m !! l = h !! l.
Proof.
  intros Hl. destruct m as [o k v|o k|a elems]; simpl in *; unfold set_field.
  - destruct (h !! o) as [[fields|?]|]; try reflexivity.
    now rewrite lookup_insert_ne.
  - destruct (h !! o) as [[fields|?]|]; try reflexivity.
    now rewrite lookup_insert_ne.
  - destruct (h !! a) as [[?|?]|]; try reflexivity.
    now rewrite lookup_insert_ne.
Qed.

Lemma mutations_extend (h0 : store) (ms : list mutation) (h : store) :
  extends h0 h ->
  Forall (fun m => target m ∉ dom h0) ms ->
  extends h0 (fold_left mutate ms h).
Proof.
  revert h. induction ms as [|m ms IH]; intros h He Hms; simpl; [assumption|].
  inversion Hms as [|? ? Hm Hms']; subst.
  apply IH; [|assumption].
  intros l Hl. rewrite mutate_elsewhere by (intros ->; contradiction).
  now apply He.
Qed.

Lemma copy_section_step (h0 : store) (copy : loc) (done : gmap string loc)
    (h : store) (section : string) (a : loc) (elems : list node) :
  copied h0 copy done h ->
  h0 !! a = Some (Arr elems) ->
  exists h', copy_section copy section a (Some h) = Some h' /\
             copied h0 copy (<[section := a]> done) h'.
Proof.
  intros (Hcopy & He & fields & Hf & Hdom & Hfields) Ha.
  assert (Hah : h !! a = Some (Arr elems)).
  { rewrite He; [assumption|]. apply elem_of_dom. eauto. }
  unfold copy_section. rewrite Hah. unfold alloc.
  set (a' := fresh (dom h)).
  assert (Hfresh : a' ∉ dom h) by apply is_fresh.
  assert (Hne : a' ≠ copy).
  { intros E. apply Hfresh. rewrite E. apply elem_of_dom. eauto. }
  assert (Hold : a' ∉ dom h0).
  { intros Hin. apply Hfresh. eapply extends_dom; eauto. }
  eexists. split; [reflexivity|].
  unfold set_field. rewrite lookup_insert_ne by assumption. rewrite Hf.
  split; [assumption|]. split.
  - apply extends_insert_new; [|assumption].
    apply extends_insert_new; assumption.
  - exists (<[section := a']> fields). split; [apply lookup_insert_eq|]. split.
    + intros k. destruct (decide (section = k)) as [->|Hk].
      * rewrite !lookup_insert_eq. split; discriminate.
      * rewrite !lookup_insert_ne by assumption. apply Hdom.
    + intros k b. destruct (decide (section = k)) as [->|Hk].
      * rewrite lookup_insert_eq. intros [= <-].
        split; [assumption|]. split; [assumption|].
        exists a, elems. rewrite lookup_insert_eq. split; [reflexivity|].
        split; [assumption|].
        rewrite lookup_insert_ne by congruence.
        rewrite lookup_insert_eq, app_nil_r. reflexivity.
      * rewrite lookup_insert_ne by assumption. intros Hb.
        destruct (Hfields k b Hb) as (Hb0 & Hbc & a0 & elems0 & Hd & H0 & Hh).
        split; [assumption|]. split; [assumption|].
        exists a0, elems0. rewrite lookup_insert_ne by assumption.
        split; [assumption|]. split; [assumption|].
        rewrite lookup_insert_ne by congruence.
        rewrite lookup_insert_ne; [assumption|].
        intros <-. apply Hfresh. apply elem_of_dom. eauto.
Qed.

Lemma copy_loop (h0 : store) (copy : loc) (h : store) (fields : gmap string loc) :
  copied h0 copy ∅ h ->
  (forall k a, fields !! k = Some a -> is_Some (read_array h0 a)) ->
  exists h', map_fold (copy_section copy) (Some h) fields = Some h' /\
             copied h0 copy fields h'.
Proof.
  intros Hstart.
  apply (map_fold_weak_ind
           (fun r m => (forall k a, m !! k = Some a -> is_Some (read_array h0 a)) ->
                       exists h', r = Some h' /\ copied h0 copy m h')).
  - intros _. eauto.
  - intros section a m r Hnone IH Harr.
    destruct IH as (h1 & -> & Hc).
    { intros k b Hk. apply (Harr k b). rewrite lookup_insert_ne; [assumption|].
      intros <-. congruence. }
    destruct (Harr section a) as [elems Helems]; [apply lookup_insert_eq|].
    apply read_array_Some in Helems.
    eapply copy_section_step; eauto.
Qed.

(** C10.  On every store in which [buttons] is a buttons state,
    [_getButtons] returns a new outer object holding a new array for each
    section (none of them is an object of the store it was called on), with
    the sections and the button nodes of the state; the store it was called
    on is unchanged, and whatever the caller then does to the returned
    object or to its arrays, the widget's buttons state reads as before. *)
Theorem getButtons_returns_fresh_copy (h : store) (buttons : loc) :
  is_buttons buttons h ->
  exists copy h',
    _getButtons buttons h = Some (copy, h') /\
    footprint copy h' ## dom h /\
    is_buttons copy h' /\
    read_buttons copy h' = read_buttons buttons h /\
    extends h h' /\
    forall ms,
      Forall (fun m => target m ∈ footprint copy h') ms ->
      read_buttons buttons (fold_left mutate ms h') = read_buttons buttons h.
Proof.
  intros Hb. pose proof Hb as (fields & Ho & Harr).
  unfold _getButtons. rewrite Ho. unfold alloc.
  set (copy := fresh (dom h)).
  assert (Hfresh : copy ∉ dom h) by apply is_fresh.
  destruct (copy_loop h copy (<[copy := Obj ∅]> h) fields)
    as (h' & -> & _ & He & cf & Hcf & Hdom & Hfields).
  { split; [assumption|]. split; [apply extends_insert_new; [apply extends_refl|assumption]|].
    exists ∅. split; [apply lookup_insert_eq|]. split.
    - intros k. rewrite !lookup_empty. tauto.
    - intros k a'. rewrite lookup_empty. discriminate. }
  { assumption. }
  assert (Hfoot : forall l, l ∈ footprint copy h' -> l ∉ dom h).
  { intros l. unfold footprint. rewrite Hcf.
    rewrite elem_of_union, elem_of_singleton, elem_of_map_img.
    intros [->|[k Hk]]; [assumption|]. now destruct (Hfields k l Hk). }
  exists copy, h'. split; [reflexivity|]. split; [|split; [|split; [|split]]].
  - intros l Hl Hin. exact (Hfoot l Hl Hin).
  - exists cf. split; [assumption|]. intros k a' Hk.
    destruct (Hfields k a' Hk) as (_ & _ & a & elems & _ & _ & Hh).
    exists elems. now apply read_array_Some.
  - unfold read_buttons. rewrite Hcf, Ho. f_equal.
    apply map_eq. intros k. rewrite !lookup_omap.
    destruct (cf !! k) as [a'|] eqn:Hk; simpl.
    + destruct (Hfields k a' Hk) as (_ & _ & a & elems & Hd & H0 & Hh).
      rewrite Hd. simpl. unfold read_array. now rewrite Hh, H0.
    + apply Hdom in Hk. now rewrite Hk.
  - assumption.
  - intros ms Hms. apply read_buttons_extends; [assumption|].
    apply mutations_extend; [assumption|].
    eapply Forall_impl; [exact Hms|]. intros m. apply Hfoot.
Qed.

(** The state [{footer: [ok, cancel]}] and a copy of it. *)
Lemma getButtons_returns_fresh_copy_witness :
  is_buttons 1%positive sample_store /\
  exists copy h',
    _getButtons 1%positive sample_store = Some (copy, h') /\
    footprint copy h' ## dom sample_store /\
    is_buttons copy h' /\
    read_buttons copy h' = read_buttons 1%positive sample_store /\
    extends sample_store h' /\
    forall ms,
      Forall (fun m => target m ∈ footprint copy h') ms ->
      read_buttons 1%positive (fold_left mutate ms h')
      = read_buttons 1%positive sample_store.
Proof.
  assert (H : is_buttons 1%positive sample_store).
  { exists {[ "footer"%string := 2%positive ]}. split; [reflexivity|].
    intros k a [_ <-]%lookup_singleton_Some. eexists. reflexivity. }
  split; [exact H|].
  exact (getButtons_returns_fresh_copy sample_store 1%positive H).
Defined.

(** The caller empties the footer of the copy and gives it a header: the
    copy changes, the state does not. *)
Example getButtons_copy_mutated :
  match _getButtons 1%positive sample_store with
  | Some (copy, h) =>
      let h' := fold_left mutate
                  [SetElems 4%positive []; SetField copy "header" 4%positive] h in
      copy = 3%positive /\
      footprint copy h = {[ 3%positive; 4%positive ]} /\
      read_buttons copy h = Some {[ "footer"%string := [ok_node; cancel_node] ]} /\
      read_buttons copy h'
      = Some {[ "footer"%string := []; "header"%string := [] ]} /\
      read_buttons 1%positive h'
      = Some {[ "footer"%string := [ok_node; cancel_node] ]}
  | None => False
  end.
Proof. vm_compute. repeat split. Qed.

End StoreFacts.

(** *** The registry *)

(** On values the getter's copy has the content of the state. *)
Lemma getButtons_content (b : gmap string (list node)) : _getButtons b = b.
Proof.
  unfold _getButtons.
  apply (map_fold_weak_ind (fun r m => r = m)); [reflexivity|].
  intros section sectionButtons m r _ ->. now rewrite app_nil_r.
Qed.

Lemma truthy_nonempty (s : string) : s ≠ ""%string -> truthy (Some s) = true.
Proof. intros Hs. simpl. now apply negb_true_iff, String.eqb_neq. Qed.

Lemma truthy_Some (o : option string) :
  truthy o = true -> exists s, o = Some s /\ s ≠ ""%string.
Proof.
  destruct o as [s|]; simpl; [|discriminate].
  intros H. exists s. split; [reflexivity|].
  now apply String.eqb_neq, negb_true_iff.
Qed.

(** A section defaulted to the footer has a name. *)
Lemma defaulted_section_nonempty (section : option string) :
  key_of (or_else section (Some DEFAULT_BUTTONS_SECTION)) ≠ ""%string.
Proof.
  unfold or_else. destruct (truthy section) eqn:Ht.
  - destruct (truthy_Some _ Ht) as (s & -> & Hs). exact Hs.
  - discriminate.
Qed.

Lemma well_formed_empty : well_formed ∅.
Proof. split; [apply lookup_empty|]. intros k l. now rewrite lookup_empty. Qed.

Lemma push_button_well_formed (section : string) (button : node)
    (b : gmap string (list node)) :
  section ≠ ""%string -> well_formed b -> well_formed (push_button section button b).
Proof.
  intros Hs [He Hl]. unfold push_button. split.
  - now rewrite lookup_insert_ne.
  - intros k l. destruct (decide (section = k)) as [->|Hk].
    + rewrite lookup_insert_eq. intros [= <-]. now destruct (default [] (b !! k)).
    + rewrite lookup_insert_ne by assumption. apply Hl.
Qed.

Section Registry.

Variable Y_Button_getNode : config -> node.

Lemma processButtons_well_formed (this : widget) (l : list button_arg)
    (currentSection : option string) (b : gmap string (list node)) :
  well_formed b ->
  well_formed (processButtons Y_Button_getNode this l currentSection b).
Proof.
  unfold processButtons. revert b.
  induction l as [|button l IH]; intros b Hb; simpl; [assumption|].
  apply IH. unfold process_button.
  destruct (resolve _ this button currentSection) as [n section].
  apply push_button_well_formed; [apply defaulted_section_nonempty|assumption].
Qed.

(** The invariant of the attribute: whatever is set, the setter's result is
    well formed. *)
Lemma setButtons_well_formed (this : widget) (cfg : buttons_config) :
  well_formed (_setButtons Y_Button_getNode this cfg).
Proof.
  destruct cfg as [l|o]; simpl.
  - apply processButtons_well_formed, well_formed_empty.
  - apply (map_fold_weak_ind (fun r _ => well_formed r)).
    + apply well_formed_empty.
    + intros section l m r _ Hr. now apply processButtons_well_formed.
Qed.

(** The setter's loop over a section that holds nodes already. *)
Lemma processButtons_nodes (this : widget) (l : list node) (section : string)
    (b : gmap string (list node)) :
  section ≠ ""%string ->
  processButtons Y_Button_getNode this (BNode <$> l) (Some section) b
  = match l with
    | [] => b
    | _ => <[section := default [] (b !! section) ++ l]> b
    end.
Proof.
  intros Hs. unfold processButtons. revert b.
  induction l as [|n l IH]; intros b; [reflexivity|].
  cbn [fmap list_fmap fold_left].
  assert (Hstep : process_button Y_Button_getNode this (Some section) b (BNode n)
                  = push_button section n b).
  { unfold process_button, resolve, or_else.
    now rewrite truthy_nonempty by assumption. }
  fold (fmap BNode l). rewrite Hstep, IH. unfold push_button.
  destruct l as [|n' l]; [reflexivity|].
  rewrite lookup_insert_eq, insert_insert_eq. simpl.
  now rewrite <- app_assoc.
Qed.

(** Setting a copy of the state (an object of arrays of nodes) keeps every
    section that has buttons. *)
Lemma setButtons_nodes (this : widget) (b : gmap string (list node)) :
  b !! ""%string = None ->
  forall k,
    _setButtons Y_Button_getNode this (of_nodes b) !! k
    = match b !! k with
      | Some [] | None => None
      | Some l => Some l
      end.
Proof.
  simpl. rewrite map_fold_fmap. revert b.
  apply (map_fold_weak_ind
           (fun r m => m !! ""%string = None ->
                       forall k, r !! k = match m !! k with
                                          | Some [] | None => None
                                          | Some l => Some l
                                          end)).
  - intros _ k. now rewrite !lookup_empty.
  - intros section l m r Hnone IH Hempty k.
    assert (Hs : section ≠ ""%string).
    { intros ->. now rewrite lookup_insert_eq in Hempty. }
    rewrite lookup_insert_ne in Hempty by assumption.
    specialize (IH Hempty). simpl.
    rewrite processButtons_nodes by assumption.
    destruct (decide (section = k)) as [->|Hk].
    + rewrite lookup_insert_eq. destruct l as [|n l]; [now rewrite IH, Hnone|].
      rewrite lookup_insert_eq, IH, Hnone. reflexivity.
    + rewrite lookup_insert_ne by assumption. destruct l as [|n l]; [apply IH|].
      rewrite lookup_insert_ne by assumption. apply IH.
Qed.

Lemma splice_insert_nonempty {A} (arr : list A) (index : Z) (x : A) :
  splice_insert arr index x ≠ [].
Proof. unfold splice_insert. intros H. now apply app_eq_nil in H as [_ ?]. Qed.






End Registry.



(** Before the widget is rendered nothing listens to [buttonsChange]: the
    added button is stored and found by index, but not by name. *)
Example addButton_before_bindUI :
  let this := addButton rendered_button (BNode ok_node) None None
                        (empty_widget false) in
  getButton (KIndex 0) None this = Some ok_node /\
  getButton (KName "ok") None this = None /\
  getButton (KName "ok") None
    (addButton rendered_button (BNode ok_node) None None
               (_bindUIButtons (empty_widget false))) = Some ok_node.
Proof. vm_compute. repeat split. Qed.

(** A predefined button goes to the section its configuration names. *)
Example addButton_predefined :
  let this := addButton rendered_button (BName "close") None None
                        (empty_widget true) in
  (length <$> buttons this) = {[ "header"%string := 1%nat ]} /\
  getButton (KName "close") None this = getButton (KIndex 0) (Some "header"%string) this /\
  is_Some (getButton (KName "close") None this).
Proof. vm_compute. repeat split. eauto. Qed.

(** *** The setter, the name map and removal *)

Section RegistryMore.

Variable Y_Button_getNode : config -> node.

Lemma process_button_placement (this : widget) (cur : option string)
    (b : gmap string (list node)) (button : button_arg) :
  process_button Y_Button_getNode this cur b button
  = push_button (placement Y_Button_getNode this cur button).1
                (placement Y_Button_getNode this cur button).2 b.
Proof.
  unfold process_button, placement.
  now destruct (resolve Y_Button_getNode this button cur).
Qed.

Lemma processButtons_grouped (this : widget) (l : list button_arg)
    (cur : option string) (b : gmap string (list node)) (s : string) :
  processButtons Y_Button_getNode this l cur b !! s
  = match placed_in Y_Button_getNode this cur l s with
    | [] => b !! s
    | ns => Some (default [] (b !! s) ++ ns)
    end.
Proof.
  unfold processButtons, placed_in. revert b.
  induction l as [|button l IH]; intros b; [reflexivity|].
  cbn [fold_left]. rewrite IH, process_button_placement. rewrite fmap_cons.
  destruct (placement Y_Button_getNode this cur button) as [k n].
  cbn [fst snd]. unfold push_button. destruct (decide (k = s)) as [->|Hk].
  - rewrite filter_cons_True by reflexivity. rewrite fmap_cons. cbn [snd].
    rewrite lookup_insert_eq.
    destruct (snd <$> filter _ _) as [|n' ns]; [reflexivity|].
    simpl. now rewrite <- app_assoc.
  - rewrite filter_cons_False by (cbn [fst]; congruence).
    now rewrite lookup_insert_ne.
Qed.

(** X9.  Given a flat array of buttons, the setter groups them by section:
    the nodes stored under a section are exactly those of the buttons the
    array places there (the section their merged configuration names, else
    "footer"), in the order of the array, and a section in which none is
    placed is not stored at all. *)
Theorem setButtons_array_grouped (this : widget) (l : list button_arg)
    (s : string) :
  _setButtons Y_Button_getNode this (CfgArray l) !! s
  = match placed_in Y_Button_getNode this None l s with
    | [] => None
    | ns => Some ns
    end.
Proof.
  simpl. rewrite processButtons_grouped, lookup_empty. reflexivity.
Qed.

Lemma setButtons_of_nodes (this : widget) (b : gmap string (list node)) :
  well_formed b -> _setButtons Y_Button_getNode this (of_nodes b) = b.
Proof.
  intros [He Hl]. apply map_eq. intros k.
  rewrite setButtons_nodes by assumption.
  destruct (b !! k) as [[|n l]|] eqn:Hk; try reflexivity.
  now destruct (Hl k [] Hk).
Qed.

(** X10.  Whatever is set, the state the setter returns has no section
    named by the empty string and no section without buttons, and giving the
    setter what [get('buttons')] then returns stores that same state
    again. *)
Theorem setButtons_get_set (this that : widget) (cfg : buttons_config) :
  let b := _setButtons Y_Button_getNode this cfg in
  well_formed b /\
  _setButtons Y_Button_getNode that (of_nodes (_getButtons b)) = b.
Proof.
  intros b. pose proof (setButtons_well_formed Y_Button_getNode this cfg) as Hwf.
  fold b in Hwf. split; [assumption|].
  rewrite getButtons_content. now apply setButtons_of_nodes.
Qed.

Lemma insert_well_formed (b : gmap string (list node)) (s : string)
    (arr : list node) :
  s ≠ ""%string -> arr ≠ [] -> b !! ""%string = None ->
  (forall k l, k ≠ s -> b !! k = Some l -> l ≠ []) ->
  well_formed (<[s := arr]> b).
Proof.
  intros Hs Harr He Hl. split; [now rewrite lookup_insert_ne|].
  intros k l. destruct (decide (s = k)) as [->|Hk].
  - rewrite lookup_insert_eq. now intros [= <-].
  - rewrite lookup_insert_ne by assumption. apply Hl. congruence.
Qed.

(** Everything [addButton] leaves behind. *)
Lemma addButton_result (this : widget) (button : button_arg)
    (section : option string) (index : option Z) :
  well_formed (buttons this) ->
  let r := resolve Y_Button_getNode this button section in
  let s := key_of (or_else r.2 (Some DEFAULT_BUTTONS_SECTION)) in
  let old := default [] (buttons this !! s) in
  let i := default (Z.of_nat (length old)) index in
  let stored := <[s := splice_insert old i r.1]> (buttons this) in
  addButton Y_Button_getNode button section index this
  = if after_buttonsChange this
    then _afterButtonsChange stored (SrcAdd r.1 s i) (with_buttons stored this)
    else with_buttons stored this.
Proof.
  intros [He Hl] r s old i stored. unfold addButton, get_buttons.
  rewrite getButtons_content. fold r. destruct r as [n configured] eqn:Hr.
  simpl in s. fold s. simpl in stored.
  assert (Hs : s ≠ ""%string) by apply defaulted_section_nonempty.
  assert (Hwf : well_formed stored).
  { apply insert_well_formed; try assumption.
    - apply splice_insert_nonempty.
    - intros k l _. apply Hl. }
  assert (Hset : forall b j,
    b = stored ->
    set_buttons Y_Button_getNode (of_nodes b) (SrcAdd n s j) this
    = if after_buttonsChange this
      then _afterButtonsChange stored (SrcAdd n s j) (with_buttons stored this)
      else with_buttons stored this).
  { intros b j ->. unfold set_buttons.
    rewrite setButtons_of_nodes by assumption. reflexivity. }
  subst stored i old.
  destruct (buttons this !! s) as [arr|] eqn:Hsec; simpl;
    destruct index as [j|]; simpl; apply Hset;
    rewrite ?insert_insert_eq; reflexivity.
Qed.

(** X11.  On a widget whose stored buttons are as the setter leaves them,
    [addButton] changes one section only: the node is put between a front
    and a back part of that section's buttons, which keep their order, and
    every other section is as before.  While [_afterButtonsChange] is not
    subscribed the name map, the default button and the DOM requests stay
    untouched; once it is, the node is mapped under its name, becomes the
    default button if it is flagged as default, and exactly one DOM
    insertion is requested. *)
Theorem addButton_changes_one_section (this : widget) (button : button_arg)
    (section : option string) (index : option Z) :
  well_formed (buttons this) ->
  let r := resolve Y_Button_getNode this button section in
  let s := key_of (or_else r.2 (Some DEFAULT_BUTTONS_SECTION)) in
  let old := default [] (buttons this !! s) in
  let this' := addButton Y_Button_getNode button section index this in
  (exists front back,
     old = front ++ back /\
     buttons this' = <[s := front ++ r.1 :: back]> (buttons this)) /\
  well_formed (buttons this') /\
  (forall k, k ≠ s -> buttons this' !! k = buttons this !! k) /\
  (after_buttonsChange this = false ->
     _buttonsMap this' = _buttonsMap this /\
     _defaultButton this' = _defaultButton this /\
     ui this' = ui this) /\
  (after_buttonsChange this = true ->
     _buttonsMap this' = <[name_key r.1 := r.1]> (_buttonsMap this) /\
     _defaultButton this'
     = (if _getButtonDefault (IsNode r.1) then Some r.1 else _defaultButton this) /\
     ui this' = ui this ++ [UiInsertButton r.1 s
                              (default (Z.of_nat (length old)) index)]).
Proof.
  intros Hwf r s old this'.
  pose proof (addButton_result this button section index Hwf) as E.
  cbv zeta in E. fold r s old this' in E.
  set (i := default (Z.of_nat (length old)) index) in *.
  assert (Hs : s ≠ ""%string) by apply defaulted_section_nonempty.
  assert (Hb : buttons this' = <[s := splice_insert old i r.1]> (buttons this)).
  { rewrite E. now destruct (after_buttonsChange this). }
  split; [|split; [|split; [|split]]].
  - exists (take (Z.to_nat (if i <? 0 then Z.max (Z.of_nat (length old) + i) 0
                            else Z.min i (Z.of_nat (length old)))) old),
           (drop (Z.to_nat (if i <? 0 then Z.max (Z.of_nat (length old) + i) 0
                            else Z.min i (Z.of_nat (length old)))) old).
    split; [now rewrite take_drop|exact Hb].
  - rewrite Hb. destruct Hwf as [He Hl].
    apply insert_well_formed; try assumption.
    + apply splice_insert_nonempty.
    + intros k l _. apply Hl.
  - intros k Hk. rewrite Hb. now rewrite lookup_insert_ne.
  - intros Hoff. rewrite E, Hoff. repeat split.
  - intros Hon. rewrite E, Hon. repeat split.
Qed.

(** *** The name map *)

Lemma mapButton_mapped (w : widget) (m : gmap string (list node))
    (seen : list node) (r : widget) (n : node) :
  mapped w m seen r -> mapped w m (seen ++ [n]) (_mapButton n r).
Proof.
  intros (Hsame & Hmap & Hall & Hdef & Hsome).
  assert (Hheld : forall x, held m seen x -> held m (seen ++ [n]) x).
  { intros x [?|?]; [now left|right; apply elem_of_app; now left]. }
  assert (Hn : held m (seen ++ [n]) n).
  { right. apply elem_of_app. right. now apply list_elem_of_singleton. }
  assert (Hinv : forall x, held m (seen ++ [n]) x -> x = n \/ held m seen x).
  { intros x [?|Hx]; [right; now left|].
    apply elem_of_app in Hx as [?|Hx]; [right; now right|].
    left. now apply list_elem_of_singleton in Hx. }
  unfold _mapButton. fold (name_key n). split; [exact Hsame|].
  split; [|split; [|split]]; simpl.
  - intros k x. destruct (decide (name_key n = k)) as [<-|Hk].
    + rewrite lookup_insert_eq. intros [= <-]. now split.
    + rewrite lookup_insert_ne by assumption. intros Hx.
      destruct (Hmap k x Hx). split; auto.
  - intros x Hx. destruct (decide (name_key n = name_key x)) as [<-|Hk].
    + rewrite lookup_insert_eq. eauto.
    + rewrite lookup_insert_ne by assumption.
      destruct (Hinv x Hx) as [->|?]; [congruence|auto].
  - intros d. destruct (_getButtonDefault (IsNode n)) eqn:Hd.
    + intros [= <-]. now split.
    + intros Hr. destruct (Hdef d Hr). split; auto.
  - intros x Hx Hxd. destruct (_getButtonDefault (IsNode n)) eqn:Hd; [eauto|].
    destruct (Hinv x Hx) as [->|?]; [congruence|eauto].
Qed.

Lemma mapped_held (w : widget) (m : gmap string (list node))
    (seen seen' : list node) (m' : gmap string (list node)) (r : widget) :
  (forall n, held m seen n <-> held m' seen' n) ->
  mapped w m seen r -> mapped w m' seen' r.
Proof.
  intros Hiff (Hsame & Hmap & Hall & Hdef & Hsome).
  split; [exact Hsame|]. split; [|split; [|split]].
  - intros k n Hn. destruct (Hmap k n Hn). split; [assumption|]. now apply Hiff.
  - intros n Hn. apply Hall. now apply Hiff.
  - intros d Hd. destruct (Hdef d Hd). split; [|assumption]. now apply Hiff.
  - intros n Hn. apply Hsome. now apply Hiff.
Qed.

Lemma mapButtons_mapped (b : gmap string (list node)) (w : widget) :
  mapped w b [] (_mapButtons b w).
Proof.
  unfold _mapButtons.
  apply (map_fold_weak_ind (fun r m => mapped w m [] r)).
  - split; [repeat split|]. split; [|split; [|split]]; simpl.
    + intros k n. now rewrite lookup_empty.
    + intros n [(s & arr & H & _)|H]; [now rewrite lookup_empty in H|].
      now apply elem_of_nil in H.
    + discriminate.
    + intros n [(s & arr & H & _)|H]; [now rewrite lookup_empty in H|].
      now apply elem_of_nil in H.
  - intros section arr m r Hnone Hr.
    assert (Hwalk : forall seen done r0,
              mapped w m done r0 ->
              mapped w m (done ++ seen)
                     (fold_left (fun this button => _mapButton button this) seen r0)).
    { induction seen as [|n seen IH]; intros done r0 H0; simpl.
      - now rewrite app_nil_r.
      - replace (done ++ n :: seen) with ((done ++ [n]) ++ seen)
          by now rewrite <- app_assoc.
        apply IH. now apply mapButton_mapped. }
    specialize (Hwalk arr [] r Hr). simpl in Hwalk.
    eapply mapped_held; [|exact Hwalk].
    intros n. unfold held, holds. split.
    + intros [(s & l & Hs & Hn)|Hn].
      * left. exists s, l. split; [|assumption].
        rewrite lookup_insert_ne; [assumption|]. intros <-. congruence.
      * left. exists section, arr. split; [apply lookup_insert_eq|assumption].
    + intros [(s & l & Hs & Hn)|Hn]; [|now apply elem_of_nil in Hn].
      destruct (decide (section = s)) as [<-|Hne].
      * rewrite lookup_insert_eq in Hs. injection Hs as <-. now right.
      * rewrite lookup_insert_ne in Hs by assumption. left. eauto.
Qed.

(** X12.  After the initializer, and after any plain [set('buttons', ..)]
    on a widget whose [buttonsChange] listener is bound, the name map and
    the stored buttons agree: every entry of the map is a stored button
    filed under its own name, every stored button's name has an entry, and
    the default button is a stored button flagged as default, there being
    one whenever some stored button is flagged. *)
Theorem name_map_agrees (this : widget) (cfg : buttons_config) :
  let agrees (w : widget) :=
    (forall k n, _buttonsMap w !! k = Some n ->
       name_key n = k /\ holds (buttons w) n) /\
    (forall n, holds (buttons w) n ->
       exists n', getButton (KName (name_key n)) None w = Some n' /\
                  name_key n' = name_key n /\ holds (buttons w) n') /\
    (forall d, getDefaultButton w = Some d ->
       holds (buttons w) d /\ _getButtonDefault (IsNode d) = true) /\
    (forall n, holds (buttons w) n -> _getButtonDefault (IsNode n) = true ->
       is_Some (getDefaultButton w)) in
  agrees (initializer this) /\
  (buttons (initializer this) = buttons this) /\
  (after_buttonsChange this = true ->
   agrees (set_buttons Y_Button_getNode cfg SrcNone this)).
Proof.
  assert (Hfrom : forall b w r,
            buttons w = b -> mapped w b [] r ->
            (forall k n, _buttonsMap r !! k = Some n ->
               name_key n = k /\ holds (buttons r) n) /\
            (forall n, holds (buttons r) n ->
               exists n', getButton (KName (name_key n)) None r = Some n' /\
                          name_key n' = name_key n /\ holds (buttons r) n') /\
            (forall d, getDefaultButton r = Some d ->
               holds (buttons r) d /\ _getButtonDefault (IsNode d) = true) /\
            (forall n, holds (buttons r) n -> _getButtonDefault (IsNode n) = true ->
               is_Some (getDefaultButton r))).
  { intros b w r Hb ((Hbr & _) & Hmap & Hall & Hdef & Hsome).
    rewrite Hbr, Hb.
    assert (Hh : forall n, held b [] n <-> holds b n).
    { intros n. unfold held. split; [|now left].
      intros [?|H]; [assumption|now apply elem_of_nil in H]. }
    split; [|split; [|split]].
    - intros k n Hn. destruct (Hmap k n Hn). split; [assumption|]. now apply Hh.
    - intros n Hn. destruct (Hall n) as [n' Hn']; [now apply Hh|].
      exists n'. simpl. split; [assumption|].
      destruct (Hmap _ _ Hn'). split; [assumption|]. now apply Hh.
    - intros d Hd. destruct (Hdef d Hd). split; [|assumption]. now apply Hh.
    - intros n Hn. apply Hsome. now apply Hh. }
  intros agrees. subst agrees. cbv beta. split; [|split].
  - unfold initializer, get_buttons. rewrite getButtons_content.
    apply (Hfrom (buttons this) this); [reflexivity|apply mapButtons_mapped].
  - unfold initializer, get_buttons. rewrite getButtons_content.
    now destruct (mapButtons_mapped (buttons this) this) as ((-> & _) & _).
  - intros Hon. unfold set_buttons. simpl. rewrite Hon. simpl.
    set (new := _setButtons Y_Button_getNode this cfg).
    pose proof (mapButtons_mapped new (with_buttons new this))
      as ((Hb & Ha) & Hmap & Hall & Hdef & Hsome).
    apply (Hfrom new (with_buttons new this)); [reflexivity|].
    split; [|split; [|split; [|split]]]; try assumption.
    simpl. repeat split; simpl; try tauto; try apply Ha; try apply Hb.
Qed.

(** *** Removal *)

Lemma indexOf_bounds (arr : list node) (x : option node) :
  -1 <= indexOf arr x < Z.of_nat (length arr) \/ (arr = [] /\ indexOf arr x = -1).
Proof.
  induction arr as [|y arr IH]; [now right|]. left. simpl.
  destruct (decide (Some y = x)); [lia|].
  destruct (Z.ltb_spec (indexOf arr x) 0); destruct IH as [?|[-> ?]]; simpl; lia.
Qed.

Lemma indexOf_absent (arr : list node) (n : node) :
  n ∉ arr -> indexOf arr (Some n) = -1.
Proof.
  induction arr as [|y arr IH]; intros Hn; [reflexivity|]. simpl.
  apply not_elem_of_cons in Hn as [Hne Hn].
  destruct (decide (Some y = Some n)) as [[= ->]|_]; [congruence|].
  now rewrite (IH Hn).
Qed.

Lemma indexOf_middle (l1 l2 : list node) (n : node) :
  n ∉ l1 -> indexOf (l1 ++ n :: l2) (Some n) = Z.of_nat (length l1).
Proof.
  induction l1 as [|y l1 IH]; intros Hn; simpl.
  - now rewrite decide_True.
  - apply not_elem_of_cons in Hn as [Hne Hn].
    destruct (decide (Some y = Some n)) as [[= ->]|_]; [congruence|].
    rewrite (IH Hn). destruct (Z.ltb_spec (Z.of_nat (length l1)) 0); lia.
Qed.

Lemma indexOf_present (arr : list node) (n : node) :
  n ∈ arr -> -1 < indexOf arr (Some n).
Proof.
  intros (l1 & l2 & -> & Hn)%list_elem_of_split_l.
  rewrite indexOf_middle by assumption. lia.
Qed.

Lemma splice_remove_middle {A} (l1 l2 : list A) (x : A) :
  splice_remove (l1 ++ x :: l2) (Z.of_nat (length l1)) = l1 ++ l2.
Proof.
  unfold splice_remove. destruct (Z.ltb_spec (Z.of_nat (length l1)) 0); [lia|].
  rewrite Z.min_l by (rewrite length_app; simpl; lia).
  rewrite Nat2Z.id, take_app_length.
  replace (S (length l1)) with (length l1 + 1)%nat by lia.
  now rewrite drop_app_add.
Qed.

Lemma splice_remove_at {A} (arr : list A) (i : Z) (x : A) :
  item arr i = Some x ->
  splice_remove arr i = take (Z.to_nat i) arr ++ drop (S (Z.to_nat i)) arr.
Proof.
  unfold item, splice_remove. destruct (decide (0 <= i)) as [Hi|?]; [|discriminate].
  intros Hx%lookup_lt_Some.
  destruct (Z.ltb_spec i 0); [lia|]. now rewrite Z.min_l by lia.
Qed.

Lemma splice_remove_past_end {A} (arr : list A) (i : Z) :
  Z.of_nat (length arr) <= i -> splice_remove arr i = arr.
Proof.
  intros Hi. unfold splice_remove. destruct (Z.ltb_spec i 0); [lia|].
  rewrite Z.min_r by lia. rewrite Nat2Z.id, firstn_all, drop_ge by lia.
  apply app_nil_r.
Qed.

Lemma splice_remove_last {A} (arr : list A) :
  splice_remove arr (-1) = take (length arr - 1) arr.
Proof.
  unfold splice_remove. simpl.
  destruct arr as [|x arr]; [reflexivity|].
  replace (Z.to_nat (Z.max (Z.of_nat (length (x :: arr)) + -1) 0))
    with (length (x :: arr) - 1)%nat by (simpl; lia).
  rewrite drop_ge by (simpl; lia). apply app_nil_r.
Qed.

Lemma find_section_found (n : node) (sections : list (string * list node))
    (s : string) (arr : list node) (index : option Z) (section : option string) :
  (s, arr) ∈ sections -> n ∈ arr ->
  (forall k l, (k, l) ∈ sections -> n ∈ l -> k = s /\ l = arr) ->
  find_section (Some n) sections index section
  = (Some (indexOf arr (Some n)), Some s).
Proof.
  revert index. induction sections as [|[k l] rest IH]; intros index Hin Hn Honly.
  - now apply elem_of_nil in Hin.
  - simpl. destruct (Z.ltb_spec (-1) (indexOf l (Some n))) as [Hfound|Hnot].
    + assert (Hl : n ∈ l).
      { destruct (decide (n ∈ l)) as [?|Hno]; [assumption|].
        rewrite (indexOf_absent l n Hno) in Hfound. lia. }
      destruct (Honly k l) as [-> ->]; [now left|assumption|reflexivity].
    + assert (Hl : n ∉ l).
      { intros Hl. apply indexOf_present in Hl. lia. }
      apply IH.
      * apply elem_of_cons in Hin as [[= -> ->]|?]; [contradiction|assumption].
      * assumption.
      * intros k' l' H'. apply Honly. now right.
Qed.

Lemma find_section_missing (n : node) (sections : list (string * list node))
    (index : option Z) (section : option string) :
  (forall k l, (k, l) ∈ sections -> n ∉ l) ->
  find_section (Some n) sections index section
  = (match sections with [] => index | _ => Some (-1) end, section).
Proof.
  revert index. induction sections as [|[k l] rest IH]; intros index Hno;
    [reflexivity|].
  simpl. rewrite (indexOf_absent l n) by (apply (Hno k); now left). simpl.
  rewrite IH by (intros k' l' H'; apply (Hno k'); now right).
  now destruct rest.
Qed.

(** Removing the node that is in one section only. *)
Lemma removeButton_node (this : widget) (n : node) (section : option string)
    (s : string) (l1 l2 : list node) :
  buttons this !! s = Some (l1 ++ n :: l2) -> n ∉ l1 ->
  (forall k l, buttons this !! k = Some l -> n ∈ l -> k = s) ->
  removeButton Y_Button_getNode (RNode n) section this
  = Returned (set_buttons Y_Button_getNode
                (of_nodes (<[s := l1 ++ l2]> (buttons this)))
                (SrcRemove n s (Z.of_nat (length l1))) this).
Proof.
  intros Hs Hn Honly. unfold removeButton, get_buttons.
  rewrite getButtons_content.
  rewrite (find_section_found n _ s (l1 ++ n :: l2)).
  - rewrite indexOf_middle by assumption. simpl. rewrite Hs.
    now rewrite splice_remove_middle.
  - now apply elem_of_map_to_list.
  - apply elem_of_app. right. now left.
  - intros k l Hk%elem_of_map_to_list Hl.
    pose proof (Honly k l Hk Hl) as ->. split; [reflexivity|congruence].
Qed.

(** Setting a state in which one section has been replaced by its former
    content brings the state back. *)
Lemma setButtons_without (this : widget) (b : gmap string (list node))
    (s : string) (rest : list node) :
  well_formed b -> s ≠ ""%string ->
  _setButtons Y_Button_getNode this (of_nodes (<[s := rest]> b))
  = put_section s rest b.
Proof.
  intros [He Hl] Hs. unfold put_section. apply map_eq. intros k.
  rewrite setButtons_nodes by now rewrite lookup_insert_ne.
  destruct (decide (s = k)) as [->|Hk].
  - rewrite lookup_insert_eq. destruct rest; [now rewrite lookup_delete_eq|].
    now rewrite lookup_insert_eq.
  - rewrite lookup_insert_ne by assumption.
    assert (E : (match rest with
                 | [] => delete s b
                 | _ => <[s := rest]> b
                 end) !! k = b !! k).
    { destruct rest; [now rewrite lookup_delete_ne|now rewrite lookup_insert_ne]. }
    rewrite E. destruct (b !! k) as [[|n l]|] eqn:Hbk; try reflexivity.
    now destruct (Hl k [] Hbk).
Qed.

(** What [addButton] of a node leaves behind. *)
Lemma addButton_node (this : widget) (n : node) (section : option string)
    (index : option Z) :
  well_formed (buttons this) ->
  let this1 := addButton Y_Button_getNode (BNode n) section index this in
  exists s front back,
    s ≠ ""%string /\
    default [] (buttons this !! s) = front ++ back /\
    buttons this1 = <[s := front ++ n :: back]> (buttons this) /\
    after_buttonsChange this1 = after_buttonsChange this /\
    (after_buttonsChange this = false ->
       _buttonsMap this1 = _buttonsMap this /\
       _defaultButton this1 = _defaultButton this) /\
    (after_buttonsChange this = true ->
       _buttonsMap this1 = <[name_key n := n]> (_buttonsMap this) /\
       _defaultButton this1
       = (if _getButtonDefault (IsNode n) then Some n else _defaultButton this)).
Proof.
  intros Hwf this1.
  pose proof (addButton_result this (BNode n) section index Hwf) as E.
  cbv zeta in E. simpl in E. fold this1 in E.
  set (s := key_of (or_else section (Some DEFAULT_BUTTONS_SECTION))) in *.
  set (old := default [] (buttons this !! s)) in *.
  set (i := default (Z.of_nat (length old)) index) in *.
  set (st := Z.to_nat (if i <? 0 then Z.max (Z.of_nat (length old) + i) 0
                       else Z.min i (Z.of_nat (length old)))).
  exists s, (take st old), (drop st old).
  split; [apply defaulted_section_nonempty|].
  split; [now rewrite take_drop|].
  rewrite E. destruct (after_buttonsChange this) eqn:Hb; simpl; rewrite ?Hb;
    repeat split; try discriminate; reflexivity.
Qed.

(** X13.  [removeButton] of a node undoes [addButton] of that node: on a
    widget whose stored buttons are as the setter leaves them and do not
    hold the node, adding the node (to any section, at any index) and then
    removing it returns without an error and stores the buttons there were.
    With the [buttonsChange] listener bound, the node's name is then in the
    name map no more (not even for a button of the same name that was mapped
    before), and the node is not the default button; without the listener
    the name map and the default button are as before. *)
Theorem removeButton_undoes_addButton (this : widget) (n : node)
    (section section' : option string) (index : option Z) :
  well_formed (buttons this) ->
  ~ holds (buttons this) n ->
  exists this',
    removeButton Y_Button_getNode (RNode n) section'
      (addButton Y_Button_getNode (BNode n) section index this)
    = Returned this' /\
    buttons this' = buttons this /\
    (after_buttonsChange this = true ->
       _buttonsMap this' = delete (name_key n) (_buttonsMap this) /\
       getButton (KName (name_key n)) None this' = None /\
       getDefaultButton this' ≠ Some n /\
       (_getButtonDefault (IsNode n) = true -> getDefaultButton this' = None) /\
       (_getButtonDefault (IsNode n) = false ->
        _defaultButton this ≠ Some n ->
        getDefaultButton this' = _defaultButton this)) /\
    (after_buttonsChange this = false ->
       _buttonsMap this' = _buttonsMap this /\
       _defaultButton this' = _defaultButton this).
Proof.
  intros Hwf Hnot.
  destruct (addButton_node this n section index Hwf)
    as (s & front & back & Hs & Hold & Hadd & Hafter & Hoff & Hon).
  set (this1 := addButton Y_Button_getNode (BNode n) section index this) in *.
  assert (Hfront : (n ∉ front) /\ (n ∉ back)).
  { assert (Hno : n ∉ front ++ back).
    { rewrite <- Hold. destruct (buttons this !! s) as [l|] eqn:Hl; simpl.
      - intros Hin. apply Hnot. exists s, l. now split.
      - apply not_elem_of_nil. }
    split; intros Hin; apply Hno; apply elem_of_app; [now left|now right]. }
  destruct Hfront as [Hfront Hback].
  assert (Hrem : removeButton Y_Button_getNode (RNode n) section' this1
                 = Returned (set_buttons Y_Button_getNode
                               (of_nodes (<[s := front ++ back]> (buttons this1)))
                               (SrcRemove n s (Z.of_nat (length front))) this1)).
  { apply removeButton_node.
    - rewrite Hadd. apply lookup_insert_eq.
    - assumption.
    - intros k l Hk Hin. destruct (decide (k = s)) as [?|Hne]; [assumption|].
      rewrite Hadd, lookup_insert_ne in Hk by congruence.
      exfalso. apply Hnot. exists k, l. now split. }
  eexists. split; [exact Hrem|].
  assert (Hstored : _setButtons Y_Button_getNode this1
                      (of_nodes (<[s := front ++ back]> (buttons this1)))
                    = buttons this).
  { rewrite Hadd, insert_insert_eq, setButtons_without by assumption.
    unfold put_section. rewrite <- Hold. destruct (buttons this !! s) as [l|] eqn:Hl; simpl.
    - destruct l as [|x l]; [now destruct (proj2 Hwf s [] Hl)|].
      now apply insert_id.
    - now apply delete_id. }
  unfold set_buttons. rewrite Hstored. simpl. rewrite Hafter.
  destruct (after_buttonsChange this) eqn:Hbound.
  - destruct (Hon eq_refl) as (Hm & Hd).
    simpl. split; [reflexivity|]. split; [|discriminate].
    intros _. unfold _unMapButton. fold (name_key n). simpl.
    rewrite Hm, lookup_insert_eq, decide_True by reflexivity.
    rewrite delete_insert_eq. split; [reflexivity|].
    split; [apply lookup_delete_eq|]. rewrite Hd. unfold getDefaultButton. simpl.
    destruct (_getButtonDefault (IsNode n)).
    + rewrite decide_True by reflexivity. repeat split; discriminate.
    + destruct (decide (_defaultButton this = Some n)) as [Hdn|Hdn].
      * repeat split; try discriminate. intros _ Hne. contradiction.
      * repeat split; try assumption. discriminate.
  - destruct (Hoff eq_refl) as (Hm & Hd).
    simpl. split; [reflexivity|].
    split; [discriminate|]. intros _. now split.
Qed.

Lemma with_buttons_same (this : widget) : with_buttons (buttons this) this = this.
Proof. now destruct this. Qed.

Lemma section_named (b : gmap string (list node)) (s : string) (arr : list node) :
  well_formed b -> b !! s = Some arr -> s ≠ ""%string.
Proof. intros [He _] Hs ->. congruence. Qed.

(** X14.  On a widget whose stored buttons are as the setter leaves them,
    [removeButton(i, section)] for an index [i] of the section takes the
    button at that index out of the section and leaves the other buttons
    and sections as they are; a section that loses its last button is no
    longer stored.  With the [buttonsChange] listener bound, the name of the
    removed button leaves the name map if it was mapped to that button, the
    button is not the default button afterwards, and one DOM removal is
    requested; without the listener none of the three changes. *)
Theorem removeButton_by_index (this : widget) (i : Z) (section : option string)
    (arr : list node) (n : node) :
  well_formed (buttons this) ->
  let s := key_of (or_else section (Some DEFAULT_BUTTONS_SECTION)) in
  buttons this !! s = Some arr ->
  item arr i = Some n ->
  exists this',
    removeButton Y_Button_getNode (RIndex i) section this = Returned this' /\
    buttons this'
    = put_section s (take (Z.to_nat i) arr ++ drop (S (Z.to_nat i)) arr)
                  (buttons this) /\
    (after_buttonsChange this = false ->
       _buttonsMap this' = _buttonsMap this /\
       _defaultButton this' = _defaultButton this /\
       ui this' = ui this) /\
    (after_buttonsChange this = true ->
       _buttonsMap this'
       = (if decide (_buttonsMap this !! name_key n = Some n)
          then delete (name_key n) (_buttonsMap this) else _buttonsMap this) /\
       getDefaultButton this' ≠ Some n /\
       ui this' = ui this ++ [UiRemoveButton n]).
Proof.
  intros Hwf s Hsec Hitem.
  assert (Hs : s ≠ ""%string) by apply defaulted_section_nonempty.
  unfold removeButton, get_buttons. rewrite getButtons_content. fold s.
  rewrite Hsec. simpl. rewrite Hsec, Hitem.
  rewrite (splice_remove_at arr i n Hitem).
  eexists. split; [reflexivity|].
  unfold set_buttons. rewrite setButtons_without by assumption.
  destruct (after_buttonsChange this) eqn:Hb; simpl; rewrite Hb; simpl.
  - split; [reflexivity|]. split; [discriminate|]. intros _.
    unfold _unMapButton. fold (name_key n). simpl.
    split; [reflexivity|]. split; [|reflexivity].
    unfold getDefaultButton. simpl.
    destruct (decide (_defaultButton this = Some n)); [discriminate|assumption].
  - split; [reflexivity|]. split; [|discriminate]. intros _. repeat split.
Qed.

(** X15.  [removeButton] raises a TypeError when it is given an index and
    the section it names (or "footer") holds no buttons, and when it is
    given a node that the widget does not hold and no section that the
    widget has.  Given an index past the end of a section, it removes
    nothing, and raises a TypeError if the [buttonsChange] listener is
    bound. *)
Theorem removeButton_raises (this : widget) :
  (forall i section,
     buttons this !! key_of (or_else section (Some DEFAULT_BUTTONS_SECTION)) = None ->
     removeButton Y_Button_getNode (RIndex i) section this = Raised "TypeError") /\
  (forall n section,
     ~ holds (buttons this) n ->
     buttons this !! key_of section = None ->
     removeButton Y_Button_getNode (RNode n) section this = Raised "TypeError") /\
  (forall i section arr,
     well_formed (buttons this) ->
     buttons this !! key_of (or_else section (Some DEFAULT_BUTTONS_SECTION))
     = Some arr ->
     Z.of_nat (length arr) <= i ->
     removeButton Y_Button_getNode (RIndex i) section this
     = if after_buttonsChange this then Raised "TypeError" else Returned this).
Proof.
  split; [|split].
  - intros i section Hnone. unfold removeButton, get_buttons.
    rewrite getButtons_content, Hnone. reflexivity.
  - intros n section Hnot Hnone. unfold removeButton, get_buttons.
    rewrite getButtons_content.
    rewrite find_section_missing.
    + simpl. now rewrite Hnone.
    + intros k l Hk%elem_of_map_to_list Hin. apply Hnot. exists k, l. now split.
  - intros i section arr Hwf Hsec Hi.
    assert (Hs : key_of (or_else section (Some DEFAULT_BUTTONS_SECTION)) ≠ ""%string)
      by apply defaulted_section_nonempty.
    unfold removeButton, get_buttons. rewrite getButtons_content, Hsec.
    cbv beta iota zeta. rewrite Hsec.
    assert (Hnone : item arr i = None).
    { unfold item. destruct (decide (0 <= i)); [|reflexivity].
      apply lookup_ge_None_2. lia. }
    rewrite Hnone, splice_remove_past_end by assumption.
    destruct (after_buttonsChange this); [reflexivity|].
    rewrite insert_id by assumption.
    rewrite setButtons_of_nodes by assumption.
    now rewrite with_buttons_same.
Qed.

(** X16.  Given a node that the widget does not hold together with a
    section that the widget has, [removeButton] does not raise and does not
    leave the buttons alone: the search ends with the index -1, and the
    splice takes the last button out of that section. *)
Theorem removeButton_of_stranger (this : widget) (n : node) (s : string)
    (arr : list node) :
  well_formed (buttons this) ->
  ~ holds (buttons this) n ->
  buttons this !! s = Some arr ->
  exists this',
    removeButton Y_Button_getNode (RNode n) (Some s) this = Returned this' /\
    buttons this' = put_section s (take (length arr - 1) arr) (buttons this).
Proof.
  intros Hwf Hnot Hsec.
  assert (Hs : s ≠ ""%string) by now apply (section_named _ _ _ Hwf Hsec).
  unfold removeButton, get_buttons. rewrite getButtons_content.
  rewrite find_section_missing.
  - assert (Hlist : map_to_list (buttons this) ≠ []).
    { intros E. assert (Hin : (s, arr) ∈ map_to_list (buttons this))
        by now apply elem_of_map_to_list.
      rewrite E in Hin. now apply elem_of_nil in Hin. }
    destruct (map_to_list (buttons this)) as [|kv rest]; [congruence|].
    simpl. rewrite Hsec, splice_remove_last.
    eexists. split; [reflexivity|].
    unfold set_buttons. rewrite setButtons_without by assumption.
    now destruct (after_buttonsChange _).
  - intros k l Hk%elem_of_map_to_list Hin. apply Hnot. exists k, l. now split.
Qed.

Lemma or_else_truthy (a b : option string) :
  truthy a = true -> or_else a b = a.
Proof. intros H. unfold or_else. now rewrite H. Qed.

Lemma mergeButtonConfig_by_name (this : widget) (name : string) :
  name ≠ ""%string ->
  let c := _mergeButtonConfig this (as_config name) in
  cfg_name c = Some name /\
  cfg_section c = (BUTTONS this !! name ≫= cfg_section).
Proof.
  intros Hname c. subst c. unfold _mergeButtonConfig.
  replace (_getButtonName (IsConfig (as_config name))) with (Some name)
    by (simpl; now rewrite or_else_truthy by now apply truthy_nonempty).
  simpl. destruct (BUTTONS this !! name); simpl; split; reflexivity.
Qed.

(** X17.  On a widget whose stored buttons are as the setter leaves them
    and whose [buttonsChange] listener is bound, a button added by a
    non-empty name is created with that name, stored in the section given
    or, with none given, in the section of the predefined button of that
    name, or else in "footer", and [getButton] of the name returns it. *)
Theorem addButton_by_name (this : widget) (name : string)
    (section : option string) (index : option Z) :
  well_formed (buttons this) ->
  name ≠ ""%string ->
  after_buttonsChange this = true ->
  let this' := addButton Y_Button_getNode (BName name) section index this in
  let s := if truthy section then key_of section
           else match BUTTONS this !! name with
                | Some predefined =>
                    if truthy (cfg_section predefined)
                    then key_of (cfg_section predefined) else "footer"%string
                | None => "footer"%string
                end in
  exists n arr,
    getButton (KName name) None this' = Some n /\
    data_name n = Some name /\
    buttons this' !! s = Some arr /\ n ∈ arr.
Proof.
  intros Hwf Hname Hon this' s.
  pose proof (addButton_result this (BName name) section index Hwf) as E.
  cbv zeta in E. fold this' in E. rewrite Hon in E.
  set (r := resolve Y_Button_getNode this (BName name) section) in *.
  destruct (mergeButtonConfig_by_name this name Hname) as [Hcn Hcs].
  assert (Hn : data_name r.1 = Some name /\ name_key r.1 = name).
  { subst r. unfold name_key. simpl. rewrite Hcn.
    split; [reflexivity|].
    now rewrite or_else_truthy by now apply truthy_nonempty. }
  assert (Hs : key_of (or_else r.2 (Some DEFAULT_BUTTONS_SECTION)) = s).
  { subst r s. simpl. rewrite Hcs. unfold or_else at 2.
    destruct (truthy section) eqn:Ht.
    - now rewrite or_else_truthy.
    - unfold or_else. destruct (BUTTONS this !! name) as [d|]; simpl; [|reflexivity].
      now destruct (truthy (cfg_section d)). }
  rewrite Hs in E. destruct Hn as [Hdata Hkey]. clearbody r.
  eexists r.1, _. split; [|split; [exact Hdata|split]].
  - rewrite E. simpl.
    change (key_of (or_else (data_name r.1) (attr_name r.1))) with (name_key r.1).
    rewrite Hkey. apply lookup_insert_eq.
  - rewrite E. simpl. apply lookup_insert_eq.
  - unfold splice_insert. apply elem_of_app. right. now left.
Qed.

End RegistryMore.

(** A node added at the front of a footer that holds one button, and
    removed again. *)
Lemma removeButton_undoes_addButton_witness :
  let this := addButton rendered_button (BNode cancel_node) None None
                        (empty_widget true) in
  (well_formed (buttons this) /\ ~ holds (buttons this) ok_node) /\
  exists this',
    removeButton rendered_button (RNode ok_node) None
      (addButton rendered_button (BNode ok_node) None (Some 0) this)
    = Returned this' /\
    buttons this' = buttons this /\
    getButton (KName "ok") None this' = None.
Proof.
  intros this.
  assert (Hb : buttons this = {[ "footer"%string := [cancel_node] ]})
    by (vm_compute; reflexivity).
  assert (Hwf : well_formed (buttons this)).
  { rewrite Hb. split; [reflexivity|].
    intros k l [_ <-]%lookup_singleton_Some. discriminate. }
  assert (Hnot : ~ holds (buttons this) ok_node).
  { rewrite Hb. intros (k & l & [_ <-]%lookup_singleton_Some & Hin).
    apply list_elem_of_singleton in Hin. discriminate. }
  split; [now split|].
  destruct (removeButton_undoes_addButton rendered_button this ok_node None None
              (Some 0) Hwf Hnot) as (this' & Hr & Hsame & Hon & _).
  exists this'. split; [exact Hr|]. split; [exact Hsame|].
  now destruct (Hon eq_refl) as (_ & Hname & _).
Defined.

(** The first of the two footer buttons removed by its index. *)
Lemma removeButton_by_index_witness :
  let this := addButton rendered_button (BNode cancel_node) None None
                (addButton rendered_button (BNode ok_node) None None
                           (empty_widget true)) in
  (well_formed (buttons this) /\
   buttons this !! "footer"%string = Some [ok_node; cancel_node]) /\
  exists this',
    removeButton rendered_button (RIndex 0) None this = Returned this' /\
    buttons this' = {[ "footer"%string := [cancel_node] ]}.
Proof.
  intros this.
  assert (Hb : buttons this = {[ "footer"%string := [ok_node; cancel_node] ]})
    by (vm_compute; reflexivity).
  assert (Hwf : well_formed (buttons this)).
  { rewrite Hb. split; [reflexivity|].
    intros k l [_ <-]%lookup_singleton_Some. discriminate. }
  assert (Hsec : buttons this !! "footer"%string = Some [ok_node; cancel_node])
    by now rewrite Hb.
  split; [now split|].
  destruct (removeButton_by_index rendered_button this 0 None
              [ok_node; cancel_node] ok_node Hwf Hsec eq_refl)
    as (this' & Hr & Hstored & _).
  exists this'. split; [exact Hr|]. rewrite Hstored, Hb. simpl.
  apply insert_singleton_eq.
Defined.

(** A node the widget does not hold, removed from the footer. *)
Lemma removeButton_of_stranger_witness :
  let this := addButton rendered_button (BNode cancel_node) None None
                        (empty_widget true) in
  (well_formed (buttons this) /\ ~ holds (buttons this) ok_node /\
   buttons this !! "footer"%string = Some [cancel_node]) /\
  exists this',
    removeButton rendered_button (RNode ok_node) (Some "footer"%string) this
    = Returned this' /\
    buttons this' = ∅.
Proof.
  intros this.
  assert (Hb : buttons this = {[ "footer"%string := [cancel_node] ]})
    by (vm_compute; reflexivity).
  assert (Hwf : well_formed (buttons this)).
  { rewrite Hb. split; [reflexivity|].
    intros k l [_ <-]%lookup_singleton_Some. discriminate. }
  assert (Hnot : ~ holds (buttons this) ok_node).
  { rewrite Hb. intros (k & l & [_ <-]%lookup_singleton_Some & Hin).
    apply list_elem_of_singleton in Hin. discriminate. }
  assert (Hsec : buttons this !! "footer"%string = Some [cancel_node])
    by now rewrite Hb.
  split; [split; [exact Hwf|split; [exact Hnot|exact Hsec]]|].
  destruct (removeButton_of_stranger rendered_button this ok_node "footer"
              [cancel_node] Hwf Hnot Hsec) as (this' & Hr & Hstored).
  exists this'. split; [exact Hr|]. rewrite Hstored, Hb. simpl.
  apply delete_singleton_eq.
Defined.

(** A rendered widget with one footer button, and one more added. *)
Lemma addButton_changes_one_section_witness :
  let this := addButton rendered_button (BNode cancel_node) None None
                        (empty_widget true) in
  well_formed (buttons this) /\
  buttons (addButton rendered_button (BName "close") None None this)
    !! "footer"%string = Some [cancel_node] /\
  well_formed (buttons (addButton rendered_button (BName "close") None None this)).
Proof.
  intros this.
  assert (Hb : buttons this = {[ "footer"%string := [cancel_node] ]})
    by (vm_compute; reflexivity).
  assert (Hwf : well_formed (buttons this)).
  { rewrite Hb. split; [reflexivity|].
    intros k l [_ <-]%lookup_singleton_Some. discriminate. }
  split; [exact Hwf|].
  destruct (addButton_changes_one_section rendered_button this (BName "close")
              None None Hwf) as (_ & Hwf' & Hother & _).
  split; [|exact Hwf'].
  rewrite Hother by (vm_compute; discriminate). now rewrite Hb.
Defined.

(** The predefined "close" button added by its name to a rendered widget: it
    goes to the header. *)
Lemma addButton_by_name_witness :
  let this := empty_widget true in
  (well_formed (buttons this) /\ after_buttonsChange this = true) /\
  exists n arr,
    getButton (KName "close") None
      (addButton rendered_button (BName "close") None None this) = Some n /\
    data_name n = Some "close"%string /\
    buttons (addButton rendered_button (BName "close") None None this)
      !! "header"%string = Some arr /\
    n ∈ arr.
Proof.
  intros this. split; [split; [apply well_formed_empty|reflexivity]|].
  exact (addButton_by_name rendered_button this "close" None None
           well_formed_empty ltac:(discriminate) eq_refl).
Defined.

End WidgetButtonsFacts.

Module ScrollViewFacts.
Import ScrollView.

Lemma constrain_below (v hi : Z) : v < 0 -> constrain v 0 hi = 0.
Proof. unfold constrain. lia. Qed.

Lemma constrain_above (v hi : Z) : 0 <= hi -> hi < v -> constrain v 0 hi = hi.
Proof. unfold constrain. lia. Qed.

Lemma constrain_inside (v hi : Z) : 0 <= v <= hi -> constrain v 0 hi = v.
Proof. unfold constrain. lia. Qed.

Lemma snapBack_enabled (sv : scrollview) :
  disabled sv = false ->
  scrollX (_snapBack sv) = constrain (scrollX sv) 0 (_maxScrollX sv) /\
  scrollY (_snapBack sv) = constrain (scrollY sv) 0 (_maxScrollY sv).
Proof.
  intros He. unfold _snapBack, set_scrollY, set_scrollX. rewrite He. simpl.
  rewrite He. simpl. split; reflexivity.
Qed.

Lemma snapBack_disabled (sv : scrollview) :
  disabled sv = true -> _snapBack sv = sv.
Proof.
  intros Hd. unfold _snapBack, set_scrollY, set_scrollX.
  rewrite Hd. simpl. rewrite Hd. reflexivity.
Qed.

(** C3, amended.  For every enabled scrollview, [_snapBack] returns an
    offset that is below zero to zero, and an offset that is above the
    maximum of its axis to that maximum; an offset within the bounds stays.
    For every disabled scrollview [_snapBack] leaves the scrollview as it
    is, so both offsets stay, whether within the bounds or not. *)
Theorem snapBack_returns_to_bounds (sv : scrollview) :
  (disabled sv = false ->
     (scrollX sv < 0 -> scrollX (_snapBack sv) = 0) /\
     (scrollY sv < 0 -> scrollY (_snapBack sv) = 0) /\
     (0 <= _maxScrollX sv < scrollX sv ->
        scrollX (_snapBack sv) = _maxScrollX sv) /\
     (0 <= _maxScrollY sv < scrollY sv ->
        scrollY (_snapBack sv) = _maxScrollY sv) /\
     (0 <= scrollX sv <= _maxScrollX sv ->
        scrollX (_snapBack sv) = scrollX sv) /\
     (0 <= scrollY sv <= _maxScrollY sv ->
        scrollY (_snapBack sv) = scrollY sv)) /\
  (disabled sv = true ->
     _snapBack sv = sv /\
     scrollX (_snapBack sv) = scrollX sv /\
     scrollY (_snapBack sv) = scrollY sv).
Proof.
  split.
  - intros He. destruct (snapBack_enabled sv He) as [-> ->].
    repeat split; intros H.
    + now apply constrain_below.
    + now apply constrain_below.
    + apply constrain_above; lia.
    + apply constrain_above; lia.
    + now apply constrain_inside.
    + now apply constrain_inside.
  - intros Hd. rewrite (snapBack_disabled sv Hd). repeat split.
Qed.

(** The two tests "snapBack on X / on Y should work properly": the offset
    set to [-100] reads [-100], and zero after [_snapBack]; on a scrollview
    disabled after the offset was set, it reads [-100] after [_snapBack]
    too. *)
Lemma snapBack_returns_to_bounds_witness :
  let svx := set_scrollX (-100) (renderNewScrollview DimX 2700 0) in
  let svy := set_scrollY (-100) (renderNewScrollview DimY 0 900) in
  let off := set_disabled true svx in
  (disabled svx = false /\ disabled svy = false /\ disabled off = true) /\
  (scrollX svx = -100 /\ scrollX (_snapBack svx) = 0) /\
  (scrollY svy = -100 /\ scrollY (_snapBack svy) = 0) /\
  (scrollX off = -100 /\ scrollX (_snapBack off) = -100).
Proof.
  intros svx svy off. split; [repeat split|].
  destruct (snapBack_returns_to_bounds svx) as (Hx & _).
  destruct (Hx eq_refl) as (Hx0 & _).
  destruct (snapBack_returns_to_bounds svy) as (Hy & _).
  destruct (Hy eq_refl) as (_ & Hy0 & _).
  destruct (snapBack_returns_to_bounds off) as (_ & Hoff).
  destruct (Hoff eq_refl) as (_ & Hoffx & _).
  split; [split; [reflexivity|apply Hx0; reflexivity]|].
  split; [split; [reflexivity|apply Hy0; reflexivity]|].
  split; [reflexivity|]. rewrite Hoffx. reflexivity.
Defined.

(** C3 as stated fails above the upper bound and on a disabled scrollview:
    an offset of 2800 with a maximum of 2700 snaps back to 2700, and the
    offset [-100] of a scrollview disabled since stays [-100]. *)
Lemma snapBack_not_to_zero :
  let over := set_scrollX 2800 (renderNewScrollview DimX 2700 0) in
  let off := set_disabled true
               (set_scrollX (-100) (renderNewScrollview DimX 2700 0)) in
  (scrollX over = 2800 /\ scrollX (_snapBack over) = 2700 /\
   scrollX (_snapBack over) ≠ 0) /\
  (scrollX off = -100 /\ scrollX (_snapBack off) = -100 /\
   scrollX (_snapBack off) ≠ 0).
Proof. vm_compute. repeat split; discriminate. Qed.

(** C4, amended.  For every enabled scrollview that scrolls vertically, one
    mousewheel event moves [scrollY] by the step of 10, up (towards zero)
    for a positive wheel delta and down for a negative one, and the offset
    is not set below zero: down from 0 gives 10, up from 10 gives 0, up
    from 0 leaves 0. *)
Theorem mousewheel_steps_by_ten (sv : scrollview) (e : wheel_event) :
  axis_y sv = true ->
  disabled sv = false ->
  (0 < wheelDelta e ->
     scrollY (_mousewheel e sv) = Z.max 0 (scrollY sv - 10)) /\
  (wheelDelta e < 0 ->
     scrollY (_mousewheel e sv) = Z.max 0 (scrollY sv + 10)) /\
  0 <= scrollY (_mousewheel e sv) /\
  scrollX (_mousewheel e sv) = scrollX sv /\
  (wheelDelta e < 0 -> scrollY sv = 0 -> scrollY (_mousewheel e sv) = 10) /\
  (0 < wheelDelta e -> scrollY sv = 10 -> scrollY (_mousewheel e sv) = 0) /\
  (0 < wheelDelta e -> scrollY sv = 0 -> scrollY (_mousewheel e sv) = 0).
Proof.
  intros Hy He. unfold _mousewheel, set_scrollY, WHEEL_STEP.
  rewrite Hy, He. simpl.
  destruct (Z.ltb_spec 0 (wheelDelta e)); repeat split; intros; lia.
Qed.

(** The three tests of "Mock event - mousewheel". *)
Lemma mousewheel_steps_by_ten_witness :
  let sv := renderNewScrollview DimY 0 900 in
  let up := {| wheelDelta := 1 |} in
  let down := {| wheelDelta := -1 |} in
  (axis_y sv = true /\ disabled sv = false) /\
  scrollY (_mousewheel up sv) = 0 /\
  scrollY (_mousewheel up (set_scrollY 10 sv)) = 0 /\
  scrollY (_mousewheel down sv) = 10.
Proof.
  intros sv up down. split; [split; reflexivity|].
  destruct (mousewheel_steps_by_ten sv up eq_refl eq_refl)
    as (_ & _ & _ & _ & _ & _ & Hup0).
  destruct (mousewheel_steps_by_ten (set_scrollY 10 sv) up eq_refl eq_refl)
    as (_ & _ & _ & _ & _ & Hup10 & _).
  destruct (mousewheel_steps_by_ten sv down eq_refl eq_refl)
    as (_ & _ & _ & _ & Hdown & _ & _).
  split; [apply Hup0; reflexivity|].
  split; [apply Hup10; reflexivity|].
  apply Hdown; reflexivity.
Defined.

(** C4 as stated fails on a disabled scrollview: the wheel leaves its
    offset where it is. *)
Lemma mousewheel_disabled_stays :
  let sv := set_disabled true (renderNewScrollview DimY 0 900) in
  axis_y sv = true /\
  scrollY sv = 0 /\
  scrollY (_mousewheel {| wheelDelta := -1 |} sv) = 0 /\
  scrollY (_mousewheel {| wheelDelta := -1 |} sv) ≠ 10.
Proof. vm_compute. repeat split; discriminate. Qed.

Section Frames.

Variable flick_frames : flick_event -> scrollview -> scrollview.

(** C5.  On every scrollview whose [disabled] attribute is true, [scrollTo]
    and setting [scrollX] or [scrollY] leave the scrollview as it is, and
    [_onGestureMoveStart] and [_flick] answer [false] and leave it as it
    is. *)
Theorem disabled_scrollview_ignores (sv : scrollview) :
  disabled sv = true ->
  (forall x y, scrollTo x y sv = sv) /\
  (forall x, set_scrollX x sv = sv) /\
  (forall y, set_scrollY y sv = sv) /\
  (forall e, _onGestureMoveStart e sv = (Some false, sv)) /\
  (forall e, _flick flick_frames e sv = (Some false, sv)).
Proof.
  intros Hd.
  unfold scrollTo, set_scrollX, set_scrollY, _onGestureMoveStart, _flick.
  rewrite Hd. repeat split.
Qed.

End Frames.

(** The test "Disabled scrollview should not scroll with scrollTo", and the
    two tests that expect [false]. *)
Lemma disabled_scrollview_ignores_witness :
  let frames := fun (e : flick_event) (sv : scrollview) =>
                  set_scrollX (scrollX sv - velocity e) sv in
  let sv := set_disabled true (renderNewScrollview DimX 2700 0) in
  disabled sv = true /\
  scrollX (set_scrollY 500 (scrollTo (Some 500) None sv)) = 0 /\
  fst (_onGestureMoveStart {| clientX := 0; clientY := 0 |} sv) = Some false /\
  fst (_flick frames {| flick_axis := DimX; velocity := -1 |} sv) = Some false.
Proof.
  intros frames sv. split; [reflexivity|].
  destruct (disabled_scrollview_ignores frames sv eq_refl)
    as (Hto & _ & Hy & Hstart & Hflick).
  rewrite Hto, Hy, Hstart, Hflick. repeat split.
Defined.

(** An enabled scrollview does scroll, start a gesture and flick. *)
Example enabled_scrollview_scrolls :
  let frames := fun (e : flick_event) (sv : scrollview) =>
                  set_scrollX (scrollX sv - velocity e) sv in
  let sv := renderNewScrollview DimX 2700 0 in
  scrollX (scrollTo (Some 500) None sv) = 500 /\
  fst (_onGestureMoveStart {| clientX := 0; clientY := 0 |} sv) = None /\
  is_Some (_gesture (snd (_onGestureMoveStart {| clientX := 0; clientY := 0 |} sv))) /\
  _flick frames {| flick_axis := DimX; velocity := -1 |} sv
  = (None, set_scrollX 1 sv).
Proof. vm_compute. repeat split. eauto. Qed.

End ScrollViewFacts.
